(** * Lead nurturing: stage transition engine and engagement scoring engine

    A shallow embedding of [src/services/StageTransitionEngine.js] and of
    the engagement scoring engine (class [EngagementScoringEngine]), with
    the parts of [src/models/Lead.js] and [src/config/database.js] they
    call.

    Conventions of the embedding.
    - Stages, event types, channels and lead ids are JavaScript strings.
    - A JavaScript object used as a lookup table is a list of own
      properties together with the properties every object literal inherits
      from [Object.prototype].
    - [throw] is the [Throw] case of [result]; [async] functions that touch
      the store are functions in the state-and-error monad [M].
    - The relational store is the record [Db] of its tables; a statement
      sent to it inside [transaction] is applied to the tables, and a
      callback that throws leaves the tables as they were (ROLLBACK).
      A statement that the schema refuses (a value longer than its
      [VARCHAR] column, a number outside [INTEGER], a [CHECK] or a
      foreign key that fails) throws the error of the store.  Strings
      stand for text the store can hold, counted in characters, and lead
      ids for the text of uuids; a value with more characters than its
      column is refused (the store cuts off excess spaces instead; values
      padded that way are not considered).  A statement fails for no
      other reason.
    - Scores, counts and timestamps (milliseconds since the epoch) that the
      code keeps integral are in [Z].  The scoring coefficients are
      JavaScript numbers; they are modelled by exact rationals [Q], so
      rounding error, overflow and NaN of IEEE doubles are outside that
      model, and calendar days are taken in UTC.  The bonus step is also
      given over the doubles themselves ([Binary64]), for the statements
      that depend on how a product is rounded. *)

From Stdlib Require Import ZArith QArith Qround Qminmax Qpower String List Lia.
From Stdlib Require Import Ascii DecimalString.
From Stdlib Require Floats Uint63.
From Stdlib Require Import Sorting.Sorted.
From stdpp Require Import base option list gmap strings.

Local Open Scope string_scope.
Local Open Scope Z_scope.

(** ** JavaScript values the engines rely on *)

Module Js.

(** Errors created by [new Error(message)] and the engine's own
    [TypeError]s. *)
Inductive JsError :=
| Error (message : string)
| TypeError (message : string).

Definition message (e : JsError) : string :=
  match e with
  | Error m => m
  | TypeError m => m
  end.

Inductive result (A : Type) :=
| Ok (a : A)
| Throw (e : JsError).
Arguments Ok {A} a.
Arguments Throw {A} e.

(** An object literal [{ k1: v1, ... }]: its own properties, in source
    order. *)
Definition object (V : Type) := list (string * V).

(** Property names found on [Object.prototype]; all of them are
    functions except the accessor [__proto__], which yields the
    prototype object itself. *)
Definition Object_prototype_functions : list string :=
  [ "constructor"; "hasOwnProperty"; "isPrototypeOf";
    "propertyIsEnumerable"; "toLocaleString"; "toString"; "valueOf";
    "__defineGetter__"; "__defineSetter__";
    "__lookupGetter__"; "__lookupSetter__" ].

(** What [obj[key]] evaluates to. *)
Inductive value (V : Type) :=
| Own (v : V)
| Function (name : string)
| ObjectPrototype
| Undefined.
Arguments Own {V} v.
Arguments Function {V} name.
Arguments ObjectPrototype {V}.
Arguments Undefined {V}.

Fixpoint getOwn {V} (obj : object V) (key : string) : option V :=
  match obj with
  | [] => None
  | (k, v) :: rest => if String.eqb key k then Some v else getOwn rest key
  end.

Definition get {V} (obj : object V) (key : string) : value V :=
  match getOwn obj key with
  | Some v => Own v
  | None =>
      if String.eqb key "__proto__" then ObjectPrototype
      else if existsb (String.eqb key) Object_prototype_functions
           then Function key
           else Undefined
  end.

(** [!!v]: arrays, plain objects and functions are truthy, [undefined]
    is not. *)
Definition truthy {V} (v : value V) : bool :=
  match v with
  | Undefined => false
  | _ => true
  end.

(** [array.includes(x)] on an array of strings. *)
Definition includes (l : list string) (x : string) : bool :=
  existsb (String.eqb x) l.

End Js.

Import Js.

(** ** The store *)

Module Store.

(** A row of [leads], as [new Lead(row)] reads it. *)
Record Lead := {
  id : string;
  product_id : string;
  stage : string;
  engagement_score : Z;
  updated_at : Z
}.

Record EventMetadata := {
  high_value_action : bool;
  conversion : bool
}.

(** A row of [engagement_events]. *)
Record EngagementEvent := {
  event_id : string;
  lead_id : string;
  event_type : string;
  channel : string;
  timestamp : Z;
  metadata : option EventMetadata;
  score_impact : Z
}.

(** One entry of the [evaluation.details] object. *)
Inductive Detail :=
| DetailScore (required actual : Z) (met : bool)
| DetailCount (required actual : Z) (met : bool)
| DetailWindow (required_hours recent_events cutoff_time : Z) (met : bool)
| DetailConversion (found met : bool)
| DetailTypes (required found missing : list string) (met : bool).

Record Evaluation := {
  met : bool;
  details : list (string * Detail);
  failedConditions : list string
}.

(** Values stored under a key of a transition's [metadata]. *)
Inductive MetaValue :=
| MetaBool (b : bool)
| MetaString (s : string)
| MetaEvaluation (e : option Evaluation).

(** A row of [stage_transitions]. *)
Record StageTransitionRecord := {
  tr_lead_id : string;
  from_stage : string;
  to_stage : string;
  trigger_reason : string;
  tr_metadata : list (string * MetaValue);
  transition_at : Z
}.

Record Db := {
  leads : gmap string Lead;
  engagement_events : list EngagementEvent;
  stage_transitions : list StageTransitionRecord
}.

(** Computations over the store that may throw. *)
Definition M (A : Type) : Type := Db -> result A * Db.

Definition ret {A} (a : A) : M A := fun db => (Ok a, db).

Definition throw {A} (e : JsError) : M A := fun db => (Throw e, db).

Definition bind {A B} (m : M A) (k : A -> M B) : M B :=
  fun db =>
    match m db with
    | (Ok a, db') => k a db'
    | (Throw e, db') => (Throw e, db')
    end.

(** [transaction(callback)] of [config/database.js]: BEGIN, the
    callback, COMMIT; when the callback throws, ROLLBACK and rethrow. *)
Definition transaction {A} (callback : M A) : M A :=
  fun db =>
    match callback db with
    | (Ok a, db') => (Ok a, db')
    | (Throw e, _) => (Throw e, db)
    end.

(** [new Lead(data)]: [data.stage || 'User']. *)
Definition newLead (row : Lead) : Lead :=
  {| id := id row;
     product_id := product_id row;
     stage := if String.eqb (stage row) "" then "User" else stage row;
     engagement_score := engagement_score row;
     updated_at := updated_at row |}.

(** [Lead.findById]: [SELECT * FROM leads WHERE id = $1]. *)
Definition findById (leadId : string) : M (option Lead) :=
  fun db => (Ok (newLead <$> leads db !! leadId), db).

(** *** The schema

    What [001_create_tables.sql] makes the store refuse: a value longer
    than its [VARCHAR] column, a number outside [INTEGER], a row that
    fails a [CHECK], a row that refers to a lead that is not stored.  The
    statement then fails with the error of the store, whose [message] is
    the store's text. *)

Definition quoted (name : string) : string :=
  String "034"%char "" +:+ name +:+ String "034"%char "".

(** [VARCHAR(n)]: at most [n] characters. *)
Definition varchar (n : nat) (value : string) : bool :=
  Nat.leb (String.length value) n.

Definition tooLong (n : nat) : JsError :=
  Error ("value too long for type character varying("
         +:+ NilEmpty.string_of_uint (Nat.to_uint n) +:+ ")").

(** [INTEGER]: 32 bits, signed. *)
Definition integer (value : Z) : bool :=
  (-2147483648 <=? value) && (value <=? 2147483647).

Definition outOfRange (value : Z) : JsError :=
  Error ("value " +:+ quoted (NilZero.string_of_int (Z.to_int value))
         +:+ " is out of range for type integer").

Definition checkViolation (relation constraint : string) : JsError :=
  Error ("new row for relation " +:+ quoted relation
         +:+ " violates check constraint " +:+ quoted constraint).

Definition foreignKeyViolation (table constraint : string) : JsError :=
  Error ("insert or update on table " +:+ quoted table
         +:+ " violates foreign key constraint " +:+ quoted constraint).

(** [CHECK (stage IN ('User', 'Engaged_Lead', 'Qualified_Lead',
    'Customer'))] on [leads]. *)
Definition leads_stage_check (stage : string) : bool :=
  existsb (String.eqb stage) ["User"; "Engaged_Lead"; "Qualified_Lead"; "Customer"].

(** [UPDATE leads SET stage = $1, updated_at = CURRENT_TIMESTAMP
    WHERE id = $2]: [stage] is [VARCHAR(50)] under [leads_stage_check];
    a lead that is not stored makes it update no row. *)
Definition updateLeadStage (now : Z) (newStage leadId : string) : M unit :=
  fun db =>
    if negb (varchar 50 newStage) then (Throw (tooLong 50), db)
    else if bool_decide (is_Some (leads db !! leadId))
            && negb (leads_stage_check newStage)
    then (Throw (checkViolation "leads" "leads_stage_check"), db)
    else
      (Ok tt,
       {| leads :=
            alter (fun l => {| id := id l;
                               product_id := product_id l;
                               stage := newStage;
                               engagement_score := engagement_score l;
                               updated_at := now |}) leadId (leads db);
          engagement_events := engagement_events db;
          stage_transitions := stage_transitions db |}).

(** [INSERT INTO stage_transitions (lead_id, from_stage, to_stage,
    trigger_reason, metadata) VALUES (...)]: the stages are
    [VARCHAR(50)], [trigger_reason] is [VARCHAR(255)] and [lead_id]
    refers to [leads]. *)
Definition insertStageTransition (now : Z) (leadId oldStage newStage reason : string)
    (md : list (string * MetaValue)) : M unit :=
  fun db =>
    if negb (varchar 50 oldStage) then (Throw (tooLong 50), db)
    else if negb (varchar 50 newStage) then (Throw (tooLong 50), db)
    else if negb (varchar 255 reason) then (Throw (tooLong 255), db)
    else if negb (bool_decide (is_Some (leads db !! leadId)))
    then (Throw (foreignKeyViolation "stage_transitions"
                   "stage_transitions_lead_id_fkey"), db)
    else
      (Ok tt,
       {| leads := leads db;
          engagement_events := engagement_events db;
          stage_transitions :=
            (stage_transitions db ++
               [ {| tr_lead_id := leadId;
                    from_stage := oldStage;
                    to_stage := newStage;
                    trigger_reason := reason;
                    tr_metadata := md;
                    transition_at := now |} ])%list |}).

(** Insertion into a list ordered by [before]; equal keys keep their
    arrival order. *)
Fixpoint insertBy {A} (before : A -> A -> bool) (x : A) (l : list A) : list A :=
  match l with
  | [] => [x]
  | y :: rest => if before y x then y :: insertBy before x rest else x :: l
  end.

Definition orderBy {A} (before : A -> A -> bool) (l : list A) : list A :=
  fold_left (fun acc x => insertBy before x acc) l [].

End Store.

Import Store.

Notation "'let*' x := m 'in' k" := (bind m (fun x => k))
  (at level 10, x name, m at level 100, k at level 200).

(** ** The stage transition engine *)

Module StageTransitionEngine.

(** [this.validTransitions] *)
Definition validTransitions : Js.object (list string) :=
  [ ("User", ["Engaged_Lead"]);
    ("Engaged_Lead", ["Qualified_Lead"; "User"]);
    ("Qualified_Lead", ["Customer"; "Engaged_Lead"]);
    ("Customer", []) ].

Record Conditions := {
  min_engagement_score : option Z;
  min_events : option Z;
  time_window_hours : option Z;
  conversion_event : bool;
  required_event_types : option (list string)
}.

Record ProgressionRule := {
  to : string;
  conditions : Conditions
}.

(** [this.defaultRules] *)
Definition defaultRules : Js.object ProgressionRule :=
  [ ("User",
     {| to := "Engaged_Lead";
        conditions := {| min_engagement_score := Some 50;
                         min_events := Some 3;
                         time_window_hours := Some 168;
                         conversion_event := false;
                         required_event_types := None |} |});
    ("Engaged_Lead",
     {| to := "Qualified_Lead";
        conditions := {| min_engagement_score := Some 150;
                         min_events := Some 8;
                         time_window_hours := Some 336;
                         conversion_event := false;
                         required_event_types := None |} |});
    ("Qualified_Lead",
     {| to := "Customer";
        conditions := {| min_engagement_score := Some 300;
                         min_events := None;
                         time_window_hours := None;
                         conversion_event := true;
                         required_event_types := None |} |}) ].

(** [isValidTransition(fromStage, toStage)].  A looked-up value that is
    truthy but is not an array has no [includes] method, and calling it
    throws. *)
Definition isValidTransition (fromStage toStage : string) : result bool :=
  let next := Js.get validTransitions fromStage in
  if negb (Js.truthy next) then Ok false
  else match next with
       | Own stages => Ok (Js.includes stages toStage)
       | _ => Throw (TypeError
                "this.validTransitions[fromStage].includes is not a function")
       end.

(** [getNextStages(currentStage)]:
    [this.validTransitions[currentStage] || []]. *)
Definition getNextStages (currentStage : string) : Js.value (list string) :=
  let next := Js.get validTransitions currentStage in
  if Js.truthy next then next else Own [].

(** [new Set(xs)] followed by [Array.from]: first occurrences, in order. *)
Definition setOf (xs : list string) : list string :=
  fold_left (fun acc x => if Js.includes acc x then acc else (acc ++ [x])%list) xs [].

(** One condition of [evaluateConditions]: record its detail and, when
    it is not met, clear [met] and push its name. *)
Definition record (name key : string) (d : Detail) (ok : bool)
    (ev : Evaluation) : Evaluation :=
  {| met := if ok then met ev else false;
     details := (details ev ++ [(key, d)])%list;
     failedConditions :=
       if ok then failedConditions ev else (failedConditions ev ++ [name])%list |}.

Record ProductConfig := {
  progression_rules : option (Js.object ProgressionRule)
}.

Record TransitionResult := {
  success : bool;
  leadId : string;
  oldStage : string;
  newStage : string;
  reason : string;
  forced : bool;
  tr_timestamp : Z
}.

(** The two shapes [evaluateProgression] returns:
    [{ canProgress: false, reason }] when the stage has no rule, and
    [{ canProgress, nextStage, currentStage, evaluation, leadId }]. *)
Inductive ProgressionEvaluation :=
| NoRule (reason : string)
| Evaluated (canProgress : bool) (nextStage currentStage : string)
    (evaluation : Evaluation) (leadId : string).

Definition canProgress (p : ProgressionEvaluation) : bool :=
  match p with
  | NoRule _ => false
  | Evaluated b _ _ _ _ => b
  end.

Definition evaluation (p : ProgressionEvaluation) : option Evaluation :=
  match p with
  | NoRule _ => None
  | Evaluated _ _ _ e _ => Some e
  end.

(** The two shapes [autoProgressLead] returns:
    [{ progressed: false, reason, evaluation }] and
    [{ progressed: true, ...result, evaluation }]. *)
Inductive AutoProgressResult :=
| NotProgressed (reason : string) (evaluation : option Evaluation)
| Progressed (result : TransitionResult) (evaluation : option Evaluation).

Definition progressed (r : AutoProgressResult) : bool :=
  match r with
  | NotProgressed _ _ => false
  | Progressed _ _ => true
  end.

(** An element of the array [batchAutoProgress] returns:
    [{ leadId, ...result }] or [{ leadId, progressed: false, error }]. *)
Inductive BatchEntry :=
| EntryResult (leadId : string) (result : AutoProgressResult)
| EntryError (leadId : string) (error : string).

Definition be_leadId (e : BatchEntry) : string :=
  match e with
  | EntryResult i _ => i
  | EntryError i _ => i
  end.

Definition be_progressed (e : BatchEntry) : bool :=
  match e with
  | EntryResult _ r => progressed r
  | EntryError _ _ => false
  end.

Definition be_error (e : BatchEntry) : option string :=
  match e with
  | EntryResult _ _ => None
  | EntryError _ m => Some m
  end.

(** [{ ...metadata, key: v }] *)
Fixpoint setProp {V} (key : string) (v : V) (obj : Js.object V) : Js.object V :=
  match obj with
  | [] => [(key, v)]
  | (k, w) :: rest =>
      if String.eqb key k then (k, v) :: rest else (k, w) :: setProp key v rest
  end.

Section Engine.

(** The wall clock: [Date.now()], [new Date()] and the store's
    [CURRENT_TIMESTAMP], held fixed during a call. *)
Variable now : Z.

(** [getLeadEvents(leadId, limit = 1000)]: the lead's events, newest
    first, at most [limit] of them. *)
Definition getLeadEvents (leadId : string) (limit : nat) : M (list EngagementEvent) :=
  fun db =>
    (Ok (take limit
           (orderBy (fun a b => timestamp b <=? timestamp a)
              (List.filter (fun e => String.eqb (lead_id e) leadId)
                 (engagement_events db)))),
     db).

(** [evaluateConditions(lead, events, conditions)] *)
Definition evaluateConditions (lead : Lead) (events : list EngagementEvent)
    (c : Conditions) : Evaluation :=
  let ev := {| met := true; details := []; failedConditions := [] |} in
  let ev :=
    match min_engagement_score c with
    | Some required =>
        let scoreMet := required <=? engagement_score lead in
        record "min_engagement_score" "engagement_score"
          (DetailScore required (engagement_score lead) scoreMet) scoreMet ev
    | None => ev
    end in
  let ev :=
    match min_events c with
    | Some required =>
        let eventsMet := required <=? Z.of_nat (length events) in
        record "min_events" "event_count"
          (DetailCount required (Z.of_nat (length events)) eventsMet) eventsMet ev
    | None => ev
    end in
  let ev :=
    match time_window_hours c with
    | Some hours =>
        let cutoffTime := now - hours * 60 * 60 * 1000 in
        let recentEvents :=
          List.filter (fun e => cutoffTime <=? timestamp e) events in
        let needed :=
          match min_events c with
          | Some n => if n =? 0 then 1 else n
          | None => 1
          end in
        let timeWindowMet := needed <=? Z.of_nat (length recentEvents) in
        record "time_window_hours" "time_window"
          (DetailWindow hours (Z.of_nat (length recentEvents)) cutoffTime
             timeWindowMet) timeWindowMet ev
    | None => ev
    end in
  let ev :=
    if conversion_event c then
      let hasConversionEvent :=
        existsb (fun e => match metadata e with
                          | Some m => conversion m
                          | None => false
                          end) events in
      record "conversion_event" "conversion_event"
        (DetailConversion hasConversionEvent hasConversionEvent)
        hasConversionEvent ev
    else ev in
  match required_event_types c with
  | Some required =>
      let eventTypes := setOf (map event_type events) in
      let missingTypes :=
        List.filter (fun t => negb (Js.includes eventTypes t)) required in
      let eventTypesMet := Nat.eqb (length missingTypes) 0 in
      record "required_event_types" "required_event_types"
        (DetailTypes required eventTypes missingTypes eventTypesMet)
        eventTypesMet ev
  | None => ev
  end.

(** [evaluateProgression(leadId, productConfig = null)].  A stage whose
    lookup in the rules yields an inherited property has no
    [conditions], and reading a condition of [undefined] throws. *)
Definition evaluateProgression (leadId : string)
    (productConfig : option ProductConfig) : M ProgressionEvaluation :=
  let* lead := findById leadId in
  match lead with
  | None => throw (Error "Lead not found")
  | Some lead =>
      let* events := getLeadEvents leadId 1000 in
      let rules :=
        match productConfig with
        | Some {| progression_rules := Some rules |} => rules
        | _ => defaultRules
        end in
      let currentStageRule := Js.get rules (stage lead) in
      if negb (Js.truthy currentStageRule) then
        ret (NoRule "No progression rule defined")
      else
        match currentStageRule with
        | Own rule =>
            let evaluation := evaluateConditions lead events (conditions rule) in
            ret (Evaluated (met evaluation) (to rule) (stage lead)
                   evaluation leadId)
        | _ => throw (TypeError
                 "Cannot read properties of undefined (reading 'min_engagement_score')")
        end
  end.

(** The two statements both transitions run inside [transaction]. *)
Definition writeTransition (leadId oldStage newStage reason : string)
    (md : list (string * MetaValue)) : M unit :=
  transaction
    (let* _ := updateLeadStage now newStage leadId in
     insertStageTransition now leadId oldStage newStage reason md).

(** [executeTransition(leadId, newStage, reason, metadata = {})] *)
Definition executeTransition (leadId newStage reason : string)
    (md : list (string * MetaValue)) : M TransitionResult :=
  let* lead := findById leadId in
  match lead with
  | None => throw (Error "Lead not found")
  | Some lead =>
      let oldStage := stage lead in
      match isValidTransition oldStage newStage with
      | Throw e => throw e
      | Ok false =>
          throw (Error ("Invalid transition from " +:+ oldStage
                          +:+ " to " +:+ newStage))
      | Ok true =>
          let* _ := writeTransition leadId oldStage newStage reason md in
          ret {| success := true;
                 leadId := leadId;
                 oldStage := oldStage;
                 newStage := newStage;
                 reason := reason;
                 forced := false;
                 tr_timestamp := now |}
      end
  end.

(** [autoProgressLead(leadId, productConfig = null)] *)
Definition autoProgressLead (leadId : string)
    (productConfig : option ProductConfig) : M AutoProgressResult :=
  let* evaluation := evaluateProgression leadId productConfig in
  match evaluation with
  | Evaluated true nextStage _ _ _ =>
      let* result :=
        executeTransition leadId nextStage
          "Auto-progression based on engagement criteria"
          [ ("evaluation",
             MetaEvaluation (StageTransitionEngine.evaluation evaluation));
            ("auto_progression", MetaBool true) ] in
      ret (Progressed result (StageTransitionEngine.evaluation evaluation))
  | _ =>
      ret (NotProgressed "Conditions not met"
             (StageTransitionEngine.evaluation evaluation))
  end.

(** The entry [{ leadId, ...result }]: a [leadId] among the spread
    fields overrides the loop's. *)
Definition entryOf (leadId : string) (result : AutoProgressResult) : BatchEntry :=
  match result with
  | Progressed t _ => EntryResult (StageTransitionEngine.leadId t) result
  | NotProgressed _ _ => EntryResult leadId result
  end.

(** [batchAutoProgress(leadIds, productConfig = null)]: one
    [try]/[catch] per lead, in order. *)
Fixpoint batchAutoProgress (leadIds : list string)
    (productConfig : option ProductConfig) (db : Db) : list BatchEntry * Db :=
  match leadIds with
  | [] => ([], db)
  | leadId :: rest =>
      let '(entry, db') :=
        match autoProgressLead leadId productConfig db with
        | (Ok result, db') => (entryOf leadId result, db')
        | (Throw error, db') =>
            (EntryError leadId (Js.message error), db')
        end in
      let '(results, db'') := batchAutoProgress rest productConfig db' in
      (entry :: results, db'')
  end.

(** [forceTransition(leadId, newStage, reason, metadata = {})] *)
Definition forceTransition (leadId newStage reason : string)
    (md : list (string * MetaValue)) : M TransitionResult :=
  let* lead := findById leadId in
  match lead with
  | None => throw (Error "Lead not found")
  | Some lead =>
      let oldStage := stage lead in
      let* _ :=
        writeTransition leadId oldStage newStage reason
          (setProp "forced_transition" (MetaBool true) md) in
      ret {| success := true;
             leadId := leadId;
             oldStage := oldStage;
             newStage := newStage;
             reason := reason;
             forced := true;
             tr_timestamp := now |}
  end.

(** [getTransitionHistory(leadId)]: the lead's audit rows, newest
    first. *)
Definition getTransitionHistory (leadId : string) : M (list StageTransitionRecord) :=
  fun db =>
    (Ok (orderBy (fun a b => transition_at b <=? transition_at a)
           (List.filter (fun r => String.eqb (tr_lead_id r) leadId)
              (stage_transitions db))),
     db).

End Engine.

End StageTransitionEngine.

(** ** The engagement scoring engine *)

Module EngagementScoringEngine.

Local Open Scope Q_scope.

Record ScoringRules := {
  login_points : Q;
  email_open_points : Q;
  email_click_points : Q;
  whatsapp_reply_points : Q;
  chatbot_interaction_points : Q;
  email_engagement_multiplier : Q;
  repeat_engagement_decay : Q;
  time_decay_factor : Q;
  engaged_lead_threshold : Q;
  qualified_lead_threshold : Q;
  customer_threshold : Q;
  high_value_action_bonus : Q;
  first_time_bonus : Q;
  consecutive_days_bonus : Q;
  recent_activity_window : Q;
  engagement_window : Q;
  decay_start_hours : Q
}.

(** [this.defaultScoringRules] *)
Definition defaultScoringRules : ScoringRules :=
  {| login_points := 10;
     email_open_points := 5;
     email_click_points := 15;
     whatsapp_reply_points := 20;
     chatbot_interaction_points := 10;
     email_engagement_multiplier := 1;
     repeat_engagement_decay := 8 # 10;
     time_decay_factor := 95 # 100;
     engaged_lead_threshold := 50;
     qualified_lead_threshold := 150;
     customer_threshold := 300;
     high_value_action_bonus := 5 # 10;
     first_time_bonus := 12 # 10;
     consecutive_days_bonus := 1 # 10;
     recent_activity_window := 24;
     engagement_window := 168;
     decay_start_hours := 72 |}.

(** [Math.round]: the nearest integer, halves towards plus infinity. *)
Definition Math_round (x : Q) : Z := Qfloor (x + (1 # 2)).

Definition Math_floor (x : Q) : Z := Qfloor x.

(** [Math.pow] at an integral exponent. *)
Definition Math_pow (x : Q) (n : Z) : Q := Qpower x n.

(** [new Date(ms)] keeps the integral part of [ms]. *)
Definition toDate (ms : Q) : Z := Z.quot (Qnum ms) (Z.pos (Qden ms)).

(** [(now - eventTime) / (1000 * 60 * 60)] *)
Definition hoursAgo (now eventTime : Z) : Q :=
  inject_Z (now - eventTime) / inject_Z (1000 * 60 * 60).

(** [calculateEventScore(event, scoringRules)] *)
Definition calculateEventScore (event : EngagementEvent) (scoringRules : ScoringRules) : Z :=
  let t := event_type event in
  let baseScore :=
    if String.eqb t "login" then login_points scoringRules
    else if String.eqb t "email_open" then email_open_points scoringRules
    else if String.eqb t "email_click" then email_click_points scoringRules
    else if String.eqb t "whatsapp_reply" then whatsapp_reply_points scoringRules
    else if String.eqb t "chatbot_interaction"
         then chatbot_interaction_points scoringRules
    else inject_Z (score_impact event) in
  let baseScore :=
    if String.eqb (channel event) "email"
    then baseScore * email_engagement_multiplier scoringRules
    else baseScore in
  Math_round baseScore.

(** [setHours(0, 0, 0, 0)] *)
Definition startOfDay (t : Z) : Z := (86400000 * (t / 86400000))%Z.

Definition oneDay : Z := 86400000%Z.

(** The loop of [calculateConsecutiveDays]; [i] counts the iterations
    left. *)
Fixpoint lookBack (i : nat) (checkDate consecutiveDays : Z)
    (eventHistory : list EngagementEvent) : Z :=
  match i with
  | O => consecutiveDays
  | S i' =>
      let hasEventOnDate :=
        existsb (fun e => (startOfDay (timestamp e) =? checkDate)%Z) eventHistory in
      if hasEventOnDate
      then lookBack i' (checkDate - oneDay)%Z (consecutiveDays + 1)%Z eventHistory
      else consecutiveDays
  end.

(** [calculateConsecutiveDays(currentEvent, eventHistory)] *)
Definition calculateConsecutiveDays (currentEvent : EngagementEvent)
    (eventHistory : list EngagementEvent) : Z :=
  let currentDate := startOfDay (timestamp currentEvent) in
  lookBack 30 (currentDate - oneDay)%Z 1%Z eventHistory.

Definition highValue (event : EngagementEvent) : bool :=
  match metadata event with
  | Some m => high_value_action m
  | None => false
  end.

Definition sameType (event e : EngagementEvent) : bool :=
  String.eqb (event_type e) (event_type event).

(** The value of [bonusMultiplier] when [applyEngagementBonuses]
    reaches its [return]. *)
Definition bonusMultiplier (event : EngagementEvent)
    (eventHistory : list EngagementEvent) (scoringRules : ScoringRules) : Q :=
  let bonusMultiplier := 1 in
  let bonusMultiplier :=
    if highValue event
    then bonusMultiplier + high_value_action_bonus scoringRules
    else bonusMultiplier in
  let previousSameTypeEvents :=
    List.filter (fun e => sameType event e
                          && (timestamp e <? timestamp event)%Z) eventHistory in
  let bonusMultiplier :=
    if Nat.eqb (length previousSameTypeEvents) 0
    then bonusMultiplier + (first_time_bonus scoringRules - 1)
    else bonusMultiplier in
  let consecutiveDays := calculateConsecutiveDays event eventHistory in
  let bonusMultiplier :=
    if (1 <? consecutiveDays)%Z
    then bonusMultiplier
         + Qmin (inject_Z consecutiveDays * consecutive_days_bonus scoringRules) 1
    else bonusMultiplier in
  let sameTypeCount := length (List.filter (sameType event) eventHistory) in
  if Nat.ltb 1 sameTypeCount
  then bonusMultiplier
       * Math_pow (repeat_engagement_decay scoringRules)
           (Z.of_nat sameTypeCount - 1)
  else bonusMultiplier.

(** [applyEngagementBonuses(eventScore, event, eventHistory, scoringRules)] *)
Definition applyEngagementBonuses (eventScore : Z) (event : EngagementEvent)
    (eventHistory : list EngagementEvent) (scoringRules : ScoringRules) : Z :=
  Math_round (inject_Z eventScore * bonusMultiplier event eventHistory scoringRules).

(** [getRecommendedStage(score, scoringRules)] *)
Definition getRecommendedStage (score : Q) (scoringRules : ScoringRules) : string :=
  if Qle_bool (customer_threshold scoringRules) score then "Customer"
  else if Qle_bool (qualified_lead_threshold scoringRules) score then "Qualified_Lead"
  else if Qle_bool (engaged_lead_threshold scoringRules) score then "Engaged_Lead"
  else "User".

(** The funnel order, as [getScoringAnalytics] sorts stages
    ([CASE l.stage WHEN 'User' THEN 1 ... WHEN 'Customer' THEN 4]). *)
Definition stageOrder (stage : string) : option Z :=
  if String.eqb stage "User" then Some 1%Z
  else if String.eqb stage "Engaged_Lead" then Some 2%Z
  else if String.eqb stage "Qualified_Lead" then Some 3%Z
  else if String.eqb stage "Customer" then Some 4%Z
  else None.

Record EventScore := {
  es_event_id : string;
  base_score : Z;
  decayed_score : Z;
  final_score : Z
}.

Record ScoreCalculation := {
  total_score : Z;
  event_count : nat;
  recent_events : nat;
  scoring_rules_used : ScoringRules;
  breakdown : list EventScore;
  recent_activity_bonus : option Z;
  calculated_at : Z
}.

Section Engine.

Variable now : Z.

(** [applyTimeDecay(eventScore, eventTimestamp, scoringRules)] *)
Definition applyTimeDecay (eventScore eventTimestamp : Z)
    (scoringRules : ScoringRules) : Z :=
  let hoursAgo := hoursAgo now eventTimestamp in
  if Qle_bool hoursAgo (decay_start_hours scoringRules) then eventScore
  else
    let daysOld := Math_floor (hoursAgo / 24) in
    let decayFactor := Math_pow (time_decay_factor scoringRules) daysOld in
    Math_round (inject_Z eventScore * decayFactor).

(** The query of [calculateLeadScore]: the lead's events since the
    cutoff, oldest first. *)
Definition eventsInWindow (leadId : string) (scoringRules : ScoringRules)
    : M (list EngagementEvent) :=
  fun db =>
    let cutoffTime :=
      toDate (inject_Z now
              - engagement_window scoringRules * inject_Z (60 * 60 * 1000)) in
    (Ok (orderBy (fun a b => (timestamp a <=? timestamp b)%Z)
           (List.filter
              (fun e => String.eqb (lead_id e) leadId
                        && (cutoffTime <=? timestamp e)%Z)
              (engagement_events db))),
     db).

(** The [for] loop of [calculateLeadScore]: [eventHistory] is
    [events.slice(0, i)] and [rest] is [events.slice(i)]. *)
Fixpoint scoreEvents (scoringRules : ScoringRules)
    (eventHistory rest : list EngagementEvent) : list EventScore :=
  match rest with
  | [] => []
  | event :: rest' =>
      let baseScore := calculateEventScore event scoringRules in
      let decayedScore := applyTimeDecay baseScore (timestamp event) scoringRules in
      let finalScore :=
        applyEngagementBonuses decayedScore event eventHistory scoringRules in
      {| es_event_id := event_id event;
         base_score := baseScore;
         decayed_score := decayedScore;
         final_score := finalScore |}
      :: scoreEvents scoringRules (eventHistory ++ [event])%list rest'
  end.

(** The body of [calculateLeadScore] once the rules and the events are
    fetched. *)
Definition scoreOf (scoringRules : ScoringRules)
    (events : list EngagementEvent) : ScoreCalculation :=
  let scores := scoreEvents scoringRules [] events in
  let totalScore := fold_left (fun acc s => (acc + final_score s)%Z) scores 0%Z in
  let recentEvents :=
    List.filter
      (fun e => Qle_bool (hoursAgo now (timestamp e))
                  (recent_activity_window scoringRules)) events in
  let recentActivityBonus :=
    if Nat.ltb 0 (length recentEvents)
    then Some (Z.min (Z.of_nat (length recentEvents) * 5) 50)
    else None in
  let totalScore :=
    match recentActivityBonus with
    | Some bonus => (totalScore + bonus)%Z
    | None => totalScore
    end in
  {| total_score := Z.max 0 (Math_round (inject_Z totalScore));
     event_count := length events;
     recent_events := length recentEvents;
     scoring_rules_used := scoringRules;
     breakdown := scores;
     recent_activity_bonus := recentActivityBonus;
     calculated_at := now |}.

(** [calculateLeadScore(leadId, productId)], with the rules that
    [getScoringRules(productId)] resolved passed in. *)
Definition calculateLeadScore (leadId : string) (scoringRules : ScoringRules)
    : M ScoreCalculation :=
  let* events := eventsInWindow leadId scoringRules in
  ret (scoreOf scoringRules events).

End Engine.

End EngagementScoringEngine.

(** ** The bonus step over binary64

    [applyEngagementBonuses] once more, with the numbers of JavaScript
    as the IEEE 754 doubles they are.  The rational model above rounds a
    product exactly; the code rounds the double nearest to it, which at
    a tie of the exact product can lie on the other side.  Statements
    that fix the value of the rounded product are made here. *)

Module Binary64.

Import PrimFloat.

(** The integer [n] as a double, for [n] below [2^63] in magnitude. *)
Definition ofZ (n : Z) : float :=
  match n with
  | Z0 => zero
  | Zpos _ => of_uint63 (Uint63.of_Z n)
  | Zneg p => opp (of_uint63 (Uint63.of_Z (Zpos p)))
  end.

(** The double nearest to [q], as a decimal literal of that value is
    read, for numerator and denominator below [2^53]. *)
Definition ofQ (q : Q) : float := div (ofZ (Qnum q)) (ofZ (Zpos (Qden q))).

(** [Math.round]: the integer nearest to [x], halves towards plus
    infinity, computed on the exact value of [x]; [-0] for negative [x]
    from [-0.5] on; zeros, infinities and NaN are returned as they
    are. *)
Definition Math_round (x : float) : float :=
  match FloatOps.Prim2SF x with
  | SpecFloat.S754_finite s m e =>
      if 0 <=? e then x
      else
        let d := 2 ^ (- e) in
        let n := ((if s then Z.neg m else Z.pos m) * 2 + d) / (2 * d) in
        if n =? 0 then (if s then neg_zero else zero) else ofZ n
  | _ => x
  end.

(** [Math.min] of two numbers: NaN when one of them is, and [-0] below
    [+0]. *)
Definition Math_min (a b : float) : float :=
  if is_nan a || is_nan b then nan
  else if ltb a b then a
  else if ltb b a then b
  else if is_zero a && get_sign a then a
  else b.

(** The keys of [scoringRules] that [applyEngagementBonuses] reads. *)
Record BonusRules := {
  repeat_engagement_decay : float;
  high_value_action_bonus : float;
  first_time_bonus : float;
  consecutive_days_bonus : float
}.

(** The doubles of a rule set given by decimal literals. *)
Definition bonusRules (rules : EngagementScoringEngine.ScoringRules) : BonusRules :=
  {| repeat_engagement_decay :=
       ofQ (EngagementScoringEngine.repeat_engagement_decay rules);
     high_value_action_bonus :=
       ofQ (EngagementScoringEngine.high_value_action_bonus rules);
     first_time_bonus := ofQ (EngagementScoringEngine.first_time_bonus rules);
     consecutive_days_bonus :=
       ofQ (EngagementScoringEngine.consecutive_days_bonus rules) |}.

Section Host.

(** [Math.pow], which the language leaves to the implementation to
    approximate. *)
Variable Math_pow : float -> float -> float.

(** [this.calculateConsecutiveDays], whose count of calendar days
    depends on the time zone of the host. *)
Variable calculateConsecutiveDays :
  EngagementEvent -> list EngagementEvent -> float.

(** [applyEngagementBonuses(eventScore, event, eventHistory,
    scoringRules)] *)
Definition applyEngagementBonuses (eventScore : float) (event : EngagementEvent)
    (eventHistory : list EngagementEvent) (scoringRules : BonusRules) : float :=
  let bonusMultiplier := one in
  let bonusMultiplier :=
    if EngagementScoringEngine.highValue event
    then add bonusMultiplier (high_value_action_bonus scoringRules)
    else bonusMultiplier in
  let previousSameTypeEvents :=
    List.filter (fun e => EngagementScoringEngine.sameType event e
                          && (timestamp e <? timestamp event)) eventHistory in
  let bonusMultiplier :=
    if Nat.eqb (length previousSameTypeEvents) 0
    then add bonusMultiplier (sub (first_time_bonus scoringRules) one)
    else bonusMultiplier in
  let consecutiveDays := calculateConsecutiveDays event eventHistory in
  let bonusMultiplier :=
    if ltb one consecutiveDays
    then
      let consecutiveBonus :=
        Math_min (mul consecutiveDays (consecutive_days_bonus scoringRules)) one in
      add bonusMultiplier consecutiveBonus
    else bonusMultiplier in
  let sameTypeCount :=
    length (List.filter (EngagementScoringEngine.sameType event) eventHistory) in
  let bonusMultiplier :=
    if Nat.ltb 1 sameTypeCount
    then
      let decayFactor :=
        Math_pow (repeat_engagement_decay scoringRules)
          (ofZ (Z.of_nat sameTypeCount - 1)) in
      mul bonusMultiplier decayFactor
    else bonusMultiplier in
  Math_round (mul eventScore bonusMultiplier).

End Host.

End Binary64.

(** ** Sample data *)

Module Sample.

Definition leadUser : Lead :=
  {| id := "lead-1"; product_id := "prod-1"; stage := "User";
     engagement_score := 0; updated_at := 0 |}.

Definition leadCustomer : Lead :=
  {| id := "lead-2"; product_id := "prod-1"; stage := "Customer";
     engagement_score := 400; updated_at := 0 |}.

Definition db : Db :=
  {| leads := <["lead-1" := leadUser]> (<["lead-2" := leadCustomer]> ∅);
     engagement_events := [];
     stage_transitions := [] |}.

(** 2023-11-14T22:13:20Z *)
Definition now : Z := 1700000000000.

Definition login (eventId : string) (hoursBefore : Z) (highValue : bool)
    : EngagementEvent :=
  {| event_id := eventId;
     lead_id := "lead-1";
     event_type := "login";
     channel := "product";
     timestamp := now - hoursBefore * 3600000;
     metadata := Some {| high_value_action := highValue; conversion := false |};
     score_impact := 0 |}.

(** [lead-1] with one login an hour ago. *)
Definition dbOneLogin : Db :=
  {| leads := leads db;
     engagement_events := [login "event-1" 1 false];
     stage_transitions := [] |}.

(** [lead-1] with two logins, two hours and one hour ago, on the same
    day. *)
Definition dbTwoLogins : Db :=
  {| leads := leads db;
     engagement_events := [login "event-1" 2 false; login "event-2" 1 false];
     stage_transitions := [] |}.

(** [dbTwoLogins] next to the events of another lead. *)
Definition dbTwoLeads : Db :=
  {| leads := leads db;
     engagement_events :=
       [ login "event-1" 2 false;
         {| event_id := "event-9";
            lead_id := "lead-2";
            event_type := "email_click";
            channel := "email";
            timestamp := now - 3600000;
            metadata := None;
            score_impact := 15 |};
         login "event-2" 1 false ];
     stage_transitions := [] |}.

(** A lead in [Engaged_Lead] with score [200] and six logins in the last
    six hours. *)
Definition leadEngaged : Lead :=
  {| id := "lead-3"; product_id := "prod-1"; stage := "Engaged_Lead";
     engagement_score := 200; updated_at := 0 |}.

Definition dbEngaged : Db :=
  {| leads := <["lead-3" := leadEngaged]> ∅;
     engagement_events :=
       map (fun h =>
              {| event_id := "event";
                 lead_id := "lead-3";
                 event_type := "login";
                 channel := "product";
                 timestamp := now - h * 3600000;
                 metadata := None;
                 score_impact := 10 |}) [1; 2; 3; 4; 5; 6];
     stage_transitions := [] |}.

(** A product whose rule for [Engaged_Lead] asks for a score of [150] and
    five events. *)
Definition productConfig : StageTransitionEngine.ProductConfig :=
  {| StageTransitionEngine.progression_rules :=
       Some [ ("Engaged_Lead",
               {| StageTransitionEngine.to := "Qualified_Lead";
                  StageTransitionEngine.conditions :=
                    {| StageTransitionEngine.min_engagement_score := Some 150;
                       StageTransitionEngine.min_events := Some 5;
                       StageTransitionEngine.time_window_hours := None;
                       StageTransitionEngine.conversion_event := false;
                       StageTransitionEngine.required_event_types := None |} |}) ] |}.

(** An opened email on each of the five days before [now]. *)
Definition fiveDays : list EngagementEvent :=
  map (fun d =>
         {| event_id := "open";
            lead_id := "lead-1";
            event_type := "email_open";
            channel := "email";
            timestamp := now - d * 86400000;
            metadata := None;
            score_impact := 5 |}) [5; 4; 3; 2; 1].

End Sample.

(** ** The progression conditions, one by one

    What each condition of a rule asks of a lead and its events, stated
    without the bookkeeping of [evaluateConditions]. *)

Module ProgressionConditions.

Import StageTransitionEngine.

Definition scoreMet (lead : Lead) (c : Conditions) : bool :=
  match min_engagement_score c with
  | Some required => required <=? engagement_score lead
  | None => true
  end.

Definition eventsMet (events : list EngagementEvent) (c : Conditions) : bool :=
  match min_events c with
  | Some required => required <=? Z.of_nat (length events)
  | None => true
  end.

Definition timeWindowMet (now : Z) (events : list EngagementEvent)
    (c : Conditions) : bool :=
  match time_window_hours c with
  | Some hours =>
      match min_events c with
      | Some n => if n =? 0 then 1 else n
      | None => 1
      end
      <=? Z.of_nat
            (length (List.filter
                       (fun e => now - hours * 60 * 60 * 1000 <=? timestamp e)
                       events))
  | None => true
  end.

Definition conversionMet (events : list EngagementEvent) (c : Conditions) : bool :=
  if conversion_event c
  then existsb (fun e => match metadata e with
                         | Some m => conversion m
                         | None => false
                         end) events
  else true.

Definition eventTypesMet (events : list EngagementEvent) (c : Conditions) : bool :=
  match required_event_types c with
  | Some required =>
      forallb (fun t => existsb (fun e => String.eqb t (event_type e)) events)
        required
  | None => true
  end.

(** The name of a condition when it fails. *)
Definition failed (name : string) (ok : bool) : list string :=
  if ok then [] else [name].

End ProgressionConditions.

(** ** The engagement event model *)

Module EngagementEventModel.

(** [EngagementEvent.validateEventType(eventType)] *)
Definition validateEventType (eventType : string) : bool :=
  Js.includes
    ["email_open"; "email_click"; "whatsapp_reply"; "chatbot_interaction";
     "login"] eventType.

(** [EngagementEvent.validateChannel(channel)] *)
Definition validateChannel (channel : string) : bool :=
  Js.includes ["email"; "whatsapp"; "chatbot"; "product"] channel.

End EngagementEventModel.

(** ** Rule sets with non-negative coefficients *)

Module Rules.

Import EngagementScoringEngine.

(** Points, multipliers and bonuses are not negative, and the first-time
    bonus does not lower a score. *)
Record nonNegative (rules : ScoringRules) : Prop := {
  nn_login : (0 <= login_points rules)%Q;
  nn_email_open : (0 <= email_open_points rules)%Q;
  nn_email_click : (0 <= email_click_points rules)%Q;
  nn_whatsapp_reply : (0 <= whatsapp_reply_points rules)%Q;
  nn_chatbot_interaction : (0 <= chatbot_interaction_points rules)%Q;
  nn_email_multiplier : (0 <= email_engagement_multiplier rules)%Q;
  nn_repeat_decay : (0 <= repeat_engagement_decay rules)%Q;
  nn_time_decay : (0 <= time_decay_factor rules)%Q;
  nn_high_value : (0 <= high_value_action_bonus rules)%Q;
  nn_first_time : (1 <= first_time_bonus rules)%Q;
  nn_consecutive : (0 <= consecutive_days_bonus rules)%Q
}.

End Rules.

(** ** The lead model *)

Module LeadModel.

Import StageTransitionEngine EngagementScoringEngine.

(** [Lead.validateStage(stage)] *)
Definition validateStage (stage : string) : bool :=
  Js.includes ["User"; "Engaged_Lead"; "Qualified_Lead"; "Customer"] stage.

(** [Lead.validateEngagementScore(score)]: a number that is not negative
    and is an integer. *)
Definition validateEngagementScore (score : Q) : bool :=
  Qle_bool 0 score && Qeq_bool score (inject_Z (Qfloor score)).

(** The keys [Lead.calculateEngagementScore] reads from its
    [scoringRules] argument; [None] stands for an absent key. *)
Record PointRules := {
  pr_login_points : option Q;
  pr_email_open_points : option Q;
  pr_email_click_points : option Q;
  pr_whatsapp_reply_points : option Q;
  pr_chatbot_interaction_points : option Q;
  pr_email_engagement_multiplier : option Q
}.

(** [Lead.calculateEngagementScore(events, scoringRules = {})], with
    [{ ...defaultRules, ...scoringRules }] read key by key. *)
Definition calculateEngagementScore (events : list EngagementEvent)
    (scoringRules : PointRules) : Z :=
  let login_points := default 10%Q (pr_login_points scoringRules) in
  let email_open_points := default 5%Q (pr_email_open_points scoringRules) in
  let email_click_points := default 15%Q (pr_email_click_points scoringRules) in
  let whatsapp_reply_points :=
    default 20%Q (pr_whatsapp_reply_points scoringRules) in
  let chatbot_interaction_points :=
    default 10%Q (pr_chatbot_interaction_points scoringRules) in
  let email_engagement_multiplier :=
    default 1%Q (pr_email_engagement_multiplier scoringRules) in
  let totalScore :=
    fold_left
      (fun totalScore event =>
         let t := event_type event in
         let points :=
           if String.eqb t "login" then login_points
           else if String.eqb t "email_open"
                then (email_open_points * email_engagement_multiplier)%Q
           else if String.eqb t "email_click"
                then (email_click_points * email_engagement_multiplier)%Q
           else if String.eqb t "whatsapp_reply" then whatsapp_reply_points
           else if String.eqb t "chatbot_interaction"
                then chatbot_interaction_points
           else inject_Z (score_impact event) in
         totalScore + Math_round points)
      events 0 in
  Z.max 0 totalScore.

(** The rule keys of a full rule set, as a [scoringRules] argument. *)
Definition pointRulesOf (rules : ScoringRules) : PointRules :=
  {| pr_login_points := Some (login_points rules);
     pr_email_open_points := Some (email_open_points rules);
     pr_email_click_points := Some (email_click_points rules);
     pr_whatsapp_reply_points := Some (whatsapp_reply_points rules);
     pr_chatbot_interaction_points := Some (chatbot_interaction_points rules);
     pr_email_engagement_multiplier := Some (email_engagement_multiplier rules) |}.

Section Model.

Variable now : Z.

(** [lead.progressStage(newStage, reason = 'Manual progression')] on the
    lead object [self]; the result is the object after the call.  The
    statements are those of a transition, the audit row taking the
    column default [{}] for its metadata. *)
Definition progressStage (self : Lead) (newStage reason : string) : M Lead :=
  if negb (validateStage newStage) then throw (Error "Invalid stage")
  else
    let oldStage := stage self in
    let* _ := writeTransition now (id self) oldStage newStage reason [] in
    ret {| id := id self;
           product_id := product_id self;
           stage := newStage;
           engagement_score := engagement_score self;
           updated_at := updated_at self |}.

End Model.

End LeadModel.

(** ** The audit trail of a lead *)

Module AuditTrail.

(** The audit rows of a lead, oldest first. *)
Definition trail (leadId : string) (db : Db) : list StageTransitionRecord :=
  List.filter (fun r => String.eqb (tr_lead_id r) leadId) (stage_transitions db).

(** Each row starts in the stage where the row before it ended. *)
Fixpoint chained (rows : list StageTransitionRecord) : Prop :=
  match rows with
  | r1 :: rest =>
      match rest with
      | r2 :: _ => to_stage r1 = from_stage r2 /\ chained rest
      | [] => True
      end
  | [] => True
  end.

(** Every stored lead is in one of the four stages, its audit rows are
    chained, and the last of them ends in the stage the lead is in. *)
Definition consistent (db : Db) : Prop :=
  forall leadId row,
    leads db !! leadId = Some row ->
    LeadModel.validateStage (stage row) = true
    /\ chained (trail leadId db)
    /\ forall r, last (trail leadId db) = Some r -> to_stage r = stage row.

End AuditTrail.

(** ** The scoring engine over the store

    The operations of the scoring engine that read the product
    configuration and write the score history.  The store is extended by
    the tables [lead_scores] and [product_configs], and the engine by its
    cache [this.productConfigs]. *)

Module ScoringService.

Import EngagementScoringEngine LeadModel.

(** A row of [lead_scores]. *)
Record ScoreRow := {
  ls_lead_id : string;
  ls_score : Z;
  calculation_reason : string;
  ls_calculated_at : Z
}.

(** The [scoring_rules] object of a product: the keys it defines. *)
Record RulesPatch := {
  p_login_points : option Q;
  p_email_open_points : option Q;
  p_email_click_points : option Q;
  p_whatsapp_reply_points : option Q;
  p_chatbot_interaction_points : option Q;
  p_email_engagement_multiplier : option Q;
  p_repeat_engagement_decay : option Q;
  p_time_decay_factor : option Q;
  p_engaged_lead_threshold : option Q;
  p_qualified_lead_threshold : option Q;
  p_customer_threshold : option Q;
  p_high_value_action_bonus : option Q;
  p_first_time_bonus : option Q;
  p_consecutive_days_bonus : option Q;
  p_recent_activity_window : option Q;
  p_engagement_window : option Q;
  p_decay_start_hours : option Q
}.

(** [{ ...defaults, ...patch }] *)
Definition merge (defaults : ScoringRules) (patch : RulesPatch) : ScoringRules :=
  {|
     login_points := default (login_points defaults) (p_login_points patch);
     email_open_points := default (email_open_points defaults) (p_email_open_points patch);
     email_click_points := default (email_click_points defaults) (p_email_click_points patch);
     whatsapp_reply_points := default (whatsapp_reply_points defaults) (p_whatsapp_reply_points patch);
     chatbot_interaction_points := default (chatbot_interaction_points defaults) (p_chatbot_interaction_points patch);
     email_engagement_multiplier := default (email_engagement_multiplier defaults) (p_email_engagement_multiplier patch);
     repeat_engagement_decay := default (repeat_engagement_decay defaults) (p_repeat_engagement_decay patch);
     time_decay_factor := default (time_decay_factor defaults) (p_time_decay_factor patch);
     engaged_lead_threshold := default (engaged_lead_threshold defaults) (p_engaged_lead_threshold patch);
     qualified_lead_threshold := default (qualified_lead_threshold defaults) (p_qualified_lead_threshold patch);
     customer_threshold := default (customer_threshold defaults) (p_customer_threshold patch);
     high_value_action_bonus := default (high_value_action_bonus defaults) (p_high_value_action_bonus patch);
     first_time_bonus := default (first_time_bonus defaults) (p_first_time_bonus patch);
     consecutive_days_bonus := default (consecutive_days_bonus defaults) (p_consecutive_days_bonus patch);
     recent_activity_window := default (recent_activity_window defaults) (p_recent_activity_window patch);
     engagement_window := default (engagement_window defaults) (p_engagement_window patch);
     decay_start_hours := default (decay_start_hours defaults) (p_decay_start_hours patch) |}.

Record State := {
  db : Db;
  lead_scores : list ScoreRow;
  (** [product_configs.scoring_rules] by [product_id]; [None] is a JSON
      value that is not truthy. *)
  product_configs : gmap string (option RulesPatch);
  (** [this.productConfigs] *)
  productConfigs : gmap string ScoringRules
}.

Definition SM (A : Type) : Type := State -> result A * State.

Definition retS {A} (a : A) : SM A := fun st => (Ok a, st).

Definition throwS {A} (e : JsError) : SM A := fun st => (Throw e, st).

Definition bindS {A B} (m : SM A) (k : A -> SM B) : SM B :=
  fun st =>
    match m st with
    | (Ok a, st') => k a st'
    | (Throw e, st') => (Throw e, st')
    end.

(** A computation over the tables of [Db], run on the extended store. *)
Definition liftDb {A} (m : M A) : SM A :=
  fun st =>
    let '(r, db') := m (db st) in
    (r, {| db := db';
           lead_scores := lead_scores st;
           product_configs := product_configs st;
           productConfigs := productConfigs st |}).

(** [transaction(callback)]: a callback that throws leaves the tables as
    they were; the engine's cache is not part of the transaction. *)
Definition transactionS {A} (callback : SM A) : SM A :=
  fun st =>
    match callback st with
    | (Ok a, st') => (Ok a, st')
    | (Throw e, st') =>
        (Throw e, {| db := db st;
                     lead_scores := lead_scores st;
                     product_configs := product_configs st;
                     productConfigs := productConfigs st' |})
    end.

(** [UPDATE leads SET engagement_score = $1,
    updated_at = CURRENT_TIMESTAMP WHERE id = $2]: [engagement_score] is
    an [INTEGER] under [CHECK (engagement_score >= 0)]. *)
Definition updateEngagementScoreRow (now newScore : Z) (leadId : string) : SM unit :=
  liftDb (fun db =>
    if negb (integer newScore) then (Throw (outOfRange newScore), db)
    else if bool_decide (is_Some (leads db !! leadId)) && (newScore <? 0)%Z
    then (Throw (checkViolation "leads" "valid_engagement_score"), db)
    else
      (Ok tt,
       {| leads :=
            alter (fun l => {| id := id l;
                               product_id := product_id l;
                               stage := stage l;
                               engagement_score := newScore;
                               updated_at := now |}) leadId (leads db);
          engagement_events := engagement_events db;
          stage_transitions := stage_transitions db |})).

(** [INSERT INTO lead_scores (lead_id, score, calculation_reason)
    VALUES ($1, $2, $3)]: [score] is an [INTEGER] under
    [CHECK (score >= 0)], [calculation_reason] is [VARCHAR(255)] and
    [lead_id] refers to [leads]. *)
Definition insertLeadScore (now : Z) (leadId : string) (score : Z)
    (reason : string) : SM unit :=
  fun st =>
    if negb (integer score) then (Throw (outOfRange score), st)
    else if negb (varchar 255 reason) then (Throw (tooLong 255), st)
    else if (score <? 0)%Z
    then (Throw (checkViolation "lead_scores" "valid_score"), st)
    else if negb (bool_decide (is_Some (leads (db st) !! leadId)))
    then (Throw (foreignKeyViolation "lead_scores" "lead_scores_lead_id_fkey"), st)
    else
      (Ok tt,
       {| db := db st;
          lead_scores :=
            (lead_scores st ++
               [ {| ls_lead_id := leadId;
                    ls_score := score;
                    calculation_reason := reason;
                    ls_calculated_at := now |} ])%list;
          product_configs := product_configs st;
          productConfigs := productConfigs st |}).

Notation "'let!' x := m 'in' k" := (bindS m (fun x => k))
  (at level 10, x name, m at level 100, k at level 200).

(** [getScoringRules(productId)].  The query does not fail in this store,
    so the [catch] that answers with the defaults is not reached. *)
Definition getScoringRules (productId : string) : SM ScoringRules :=
  fun st =>
    match productConfigs st !! productId with
    | Some rules => (Ok rules, st)
    | None =>
        let rules :=
          match product_configs st !! productId with
          | Some (Some scoring_rules) => merge defaultScoringRules scoring_rules
          | _ => defaultScoringRules
          end in
        (Ok rules,
         {| db := db st;
            lead_scores := lead_scores st;
            product_configs := product_configs st;
            productConfigs := <[productId := rules]> (productConfigs st) |})
    end.

(** [clearCache(productId = null)]: one entry when [productId] is truthy,
    every entry otherwise. *)
Definition clearCache (productId : option string) (st : State) : State :=
  {| db := db st;
     lead_scores := lead_scores st;
     product_configs := product_configs st;
     productConfigs :=
       match productId with
       | Some p => if String.eqb p "" then ∅ else delete p (productConfigs st)
       | None => ∅
       end |}.

Record UpdateResult := {
  ur_leadId : string;
  oldScore : Z;
  newScore : Z;
  changed : bool;
  calculation : ScoreCalculation
}.

(** An element of the array [batchUpdateScores] returns: the result of
    [updateLeadScore] or [{ leadId, error, changed: false }]. *)
Inductive UpdateEntry :=
| Updated (result : UpdateResult)
| UpdateFailed (leadId : string) (error : string).

Definition ue_leadId (e : UpdateEntry) : string :=
  match e with
  | Updated r => ur_leadId r
  | UpdateFailed i _ => i
  end.

Definition ue_changed (e : UpdateEntry) : bool :=
  match e with
  | Updated r => changed r
  | UpdateFailed _ _ => false
  end.

Record Qualification := {
  q_leadId : string;
  currentScore : Z;
  th_engaged_lead : Q;
  th_qualified_lead : Q;
  th_customer : Q;
  is_engaged : bool;
  is_qualified : bool;
  is_customer_ready : bool;
  current_stage : string;
  recommended_stage : string
}.

Section Service.

Variable now : Z.

(** [calculateLeadScore(leadId, productId)] *)
Definition calculateLeadScore (leadId productId : string) : SM ScoreCalculation :=
  let! scoringRules := getScoringRules productId in
  liftDb (EngagementScoringEngine.calculateLeadScore now leadId scoringRules).

(** [updateLeadScore(leadId, reason = 'Scheduled recalculation')] *)
Definition updateLeadScore (leadId reason : string) : SM UpdateResult :=
  let! lead := liftDb (findById leadId) in
  match lead with
  | None => throwS (Error "Lead not found")
  | Some lead =>
      let! scoreCalculation := calculateLeadScore leadId (product_id lead) in
      let newScore := total_score scoreCalculation in
      let oldScore := engagement_score lead in
      if newScore =? oldScore then
        retS {| ur_leadId := leadId;
                oldScore := oldScore;
                newScore := newScore;
                changed := false;
                calculation := scoreCalculation |}
      else
        let! _ :=
          transactionS
            (let! _ := updateEngagementScoreRow now newScore leadId in
             insertLeadScore now leadId newScore reason) in
        retS {| ur_leadId := leadId;
                oldScore := oldScore;
                newScore := newScore;
                changed := true;
                calculation := scoreCalculation |}
  end.

(** [batchUpdateScores(leadIds, reason = 'Batch score update')] *)
Fixpoint batchUpdateScores (leadIds : list string) (reason : string)
    (st : State) : list UpdateEntry * State :=
  match leadIds with
  | [] => ([], st)
  | leadId :: rest =>
      let '(entry, st') :=
        match updateLeadScore leadId reason st with
        | (Ok result, st') => (Updated result, st')
        | (Throw error, st') => (UpdateFailed leadId (Js.message error), st')
        end in
      let '(results, st'') := batchUpdateScores rest reason st' in
      (entry :: results, st'')
  end.

(** [checkQualificationStatus(leadId, productId)] *)
Definition checkQualificationStatus (leadId productId : string) : SM Qualification :=
  let! scoringRules := getScoringRules productId in
  let! lead := liftDb (findById leadId) in
  match lead with
  | None => throwS (Error "Lead not found")
  | Some lead =>
      let currentScore := engagement_score lead in
      retS {| q_leadId := leadId;
              currentScore := currentScore;
              th_engaged_lead := engaged_lead_threshold scoringRules;
              th_qualified_lead := qualified_lead_threshold scoringRules;
              th_customer := customer_threshold scoringRules;
              is_engaged :=
                Qle_bool (engaged_lead_threshold scoringRules)
                  (inject_Z currentScore);
              is_qualified :=
                Qle_bool (qualified_lead_threshold scoringRules)
                  (inject_Z currentScore);
              is_customer_ready :=
                Qle_bool (customer_threshold scoringRules)
                  (inject_Z currentScore);
              current_stage := stage lead;
              recommended_stage :=
                getRecommendedStage (inject_Z currentScore) scoringRules |}
  end.

(** [lead.updateEngagementScore(newScore, reason = 'Manual update')] on
    the lead object [self]; the result is the object after the call. *)
Definition updateEngagementScore (self : Lead) (newScore : Q) (reason : string)
    : SM Lead :=
  if negb (validateEngagementScore newScore)
  then throwS (Error "Invalid engagement score")
  else
    let! _ :=
      transactionS
        (let! _ := updateEngagementScoreRow now (Qfloor newScore) (id self) in
         insertLeadScore now (id self) (Qfloor newScore) reason) in
    retS {| id := id self;
            product_id := product_id self;
            stage := stage self;
            engagement_score := Qfloor newScore;
            updated_at := updated_at self |}.

End Service.

End ScoringService.

Module SampleState.

Import ScoringService.

(** A product that raises the customer threshold and nothing else. *)
Definition strictProduct : RulesPatch :=
  {| p_login_points := None;
     p_email_open_points := None;
     p_email_click_points := None;
     p_whatsapp_reply_points := None;
     p_chatbot_interaction_points := None;
     p_email_engagement_multiplier := None;
     p_repeat_engagement_decay := None;
     p_time_decay_factor := None;
     p_engaged_lead_threshold := None;
     p_qualified_lead_threshold := None;
     p_customer_threshold := Some 500%Q;
     p_high_value_action_bonus := None;
     p_first_time_bonus := None;
     p_consecutive_days_bonus := None;
     p_recent_activity_window := None;
     p_engagement_window := None;
     p_decay_start_hours := None |}.

(** The leads and events of [Sample.dbTwoLogins], no score history, the
    product [prod-1] configured with [strictProduct], nothing cached. *)
Definition state : State :=
  {| db := Sample.dbTwoLogins;
     lead_scores := [];
     product_configs := <["prod-1" := Some strictProduct]> ∅;
     productConfigs := ∅ |}.

End SampleState.

(** ** Leads eligible for progression *)

Module EligibleLeads.

(** [ORDER BY l.engagement_score DESC, l.updated_at ASC]; rows equal in
    both keep the order in which the table yields them. *)
Definition byScoreThenAge (a b : Lead) : bool :=
  (engagement_score b <? engagement_score a)
  || ((engagement_score b =? engagement_score a)
      && (updated_at a <=? updated_at b)).

(** [getEligibleLeads(stage, productId = null, limit = 100)]: the product
    filter applies when [productId] is truthy. *)
Definition getEligibleLeads (stage : string) (productId : option string)
    (limit : nat) : M (list Lead) :=
  fun db =>
    let rows :=
      List.filter
        (fun l =>
           String.eqb (Store.stage l) stage
           && match productId with
              | Some p => String.eqb p "" || String.eqb (product_id l) p
              | None => true
              end)
        (snd <$> map_to_list (leads db)) in
    (Ok (newLead <$> take limit (orderBy byScoreThenAge rows)), db).

End EligibleLeads.

(** * Properties of the stage transition engine *)

Import StageTransitionEngine.

(** Case analysis on the string comparisons of a goal. *)
Ltac case_eqb :=
  repeat match goal with
         | |- context [String.eqb ?a ?b] =>
             destruct (String.eqb_spec a b); subst; simpl
         | H : context [String.eqb ?a ?b] |- _ =>
             destruct (String.eqb_spec a b); subst; simpl in H
         end.

(** The adjacency table, edge by edge. *)
Lemma isValidTransition_true_edges fromStage toStage :
  isValidTransition fromStage toStage = Ok true ->
  (fromStage, toStage) ∈
    [ ("User", "Engaged_Lead");
      ("Engaged_Lead", "Qualified_Lead"); ("Engaged_Lead", "User");
      ("Qualified_Lead", "Customer"); ("Qualified_Lead", "Engaged_Lead") ].
Proof.
  unfold isValidTransition, Js.get, validTransitions, Js.includes. simpl.
  intros H. case_eqb; try discriminate; set_solver.
Qed.

Lemma isValidTransition_true_neq fromStage toStage :
  isValidTransition fromStage toStage = Ok true -> fromStage <> toStage.
Proof.
  intros H%isValidTransition_true_edges Heq. subst.
  repeat (apply elem_of_cons in H as [[= ? ?] | H]; [congruence |]).
  by apply elem_of_nil in H.
Qed.

(** A stage name that is neither a key of the table nor inherited from
    [Object.prototype] has no successor. *)
Lemma isValidTransition_unknown fromStage toStage :
  Js.getOwn validTransitions fromStage = None ->
  fromStage <> "__proto__" ->
  fromStage ∉ Js.Object_prototype_functions ->
  isValidTransition fromStage toStage = Ok false
  /\ getNextStages fromStage = Own [].
Proof.
  intros Hown Hproto Hfun.
  unfold isValidTransition, getNextStages, Js.get. rewrite Hown.
  destruct (String.eqb_spec fromStage "__proto__"); [done |].
  destruct (existsb (String.eqb fromStage) Js.Object_prototype_functions) eqn:E;
    [| done].
  apply existsb_exists in E as (x & Hin & Hx).
  apply String.eqb_eq in Hx. subst x.
  exfalso. apply Hfun. by apply list_elem_of_In.
Qed.

(** The four stage names fit their columns. *)
Lemma leads_stage_check_varchar stage :
  leads_stage_check stage = true -> varchar 50 stage = true.
Proof.
  unfold leads_stage_check. simpl. intros H.
  case_eqb; try discriminate; reflexivity.
Qed.

Lemma isValidTransition_stage_check fromStage toStage :
  isValidTransition fromStage toStage = Ok true ->
  leads_stage_check fromStage = true /\ leads_stage_check toStage = true.
Proof.
  intros H%isValidTransition_true_edges.
  repeat (apply elem_of_cons in H as [[= -> ->] | H]; [by split |]).
  by apply elem_of_nil in H.
Qed.

(** The store after the two statements of a transition: both are
    applied, or neither is. *)
Lemma writeTransition_run now leadId oldStage newStage reason md db :
  match writeTransition now leadId oldStage newStage reason md db with
  | (Ok _, db') =>
      is_Some (leads db !! leadId)
      /\ leads_stage_check newStage = true
      /\ varchar 50 oldStage = true
      /\ varchar 255 reason = true
      /\ stage_transitions db' =
           (stage_transitions db ++
              [ {| tr_lead_id := leadId;
                   from_stage := oldStage;
                   to_stage := newStage;
                   trigger_reason := reason;
                   tr_metadata := md;
                   transition_at := now |} ])%list
      /\ engagement_events db' = engagement_events db
      /\ (forall l, leads db !! leadId = Some l ->
            stage <$> leads db' !! leadId = Some newStage)
      /\ (forall other, other <> leadId -> leads db' !! other = leads db !! other)
  | (Throw _, db') => db' = db
  end.
Proof.
  unfold writeTransition, transaction, bind, updateLeadStage,
    insertStageTransition.
  destruct (varchar 50 newStage) eqn:Hnew; simpl; [| reflexivity].
  destruct (leads db !! leadId) as [row |] eqn:Hrow.
  - rewrite bool_decide_eq_true_2 by eauto. simpl.
    destruct (leads_stage_check newStage) eqn:Hcheck; simpl; [| reflexivity].
    destruct (varchar 50 oldStage) eqn:Hold; simpl; [| reflexivity].
    destruct (varchar 255 reason) eqn:Hreason; simpl; [| reflexivity].
    rewrite lookup_alter_eq, Hrow. simpl.
    repeat split; eauto.
    + intros l Hl. rewrite lookup_alter_eq, Hrow. reflexivity.
    + intros other Hne. by rewrite lookup_alter_ne.
  - rewrite bool_decide_eq_false_2 by (intros [? ?]; discriminate). simpl.
    destruct (varchar 50 oldStage) eqn:Hold; simpl; [| reflexivity].
    destruct (varchar 255 reason) eqn:Hreason; simpl; [| reflexivity].
    rewrite lookup_alter_eq, Hrow. reflexivity.
Qed.

Lemma writeTransition_leads now leadId oldStage newStage reason md db db' :
  writeTransition now leadId oldStage newStage reason md db = (Ok tt, db') ->
  leads db'
  = alter (fun l => {| id := id l;
                       product_id := product_id l;
                       stage := newStage;
                       engagement_score := engagement_score l;
                       updated_at := now |}) leadId (leads db).
Proof.
  unfold writeTransition, transaction, bind, updateLeadStage,
    insertStageTransition.
  destruct (varchar 50 newStage); simpl; [| discriminate].
  destruct (bool_decide (is_Some (leads db !! leadId))
            && negb (leads_stage_check newStage)); simpl; [discriminate |].
  destruct (varchar 50 oldStage); simpl; [| discriminate].
  destruct (varchar 255 reason); simpl; [| discriminate].
  match goal with
  | |- context [bool_decide ?P] => destruct (bool_decide P)
  end; simpl; [| discriminate].
  by intros [= <-].
Qed.

(** The store accepts the two statements for a stored lead, a stage of
    the four and values that fit their columns. *)
Lemma writeTransition_ok now leadId oldStage newStage reason md db :
  is_Some (leads db !! leadId) ->
  leads_stage_check newStage = true ->
  varchar 50 oldStage = true ->
  varchar 255 reason = true ->
  exists db', writeTransition now leadId oldStage newStage reason md db = (Ok tt, db').
Proof.
  intros [row Hrow] Hcheck Hold Hreason.
  pose proof (leads_stage_check_varchar newStage Hcheck) as Hnew.
  unfold writeTransition, transaction, bind, updateLeadStage,
    insertStageTransition.
  rewrite Hnew, Hcheck, Hold, Hreason. simpl.
  rewrite bool_decide_eq_true_2 by eauto. simpl.
  rewrite lookup_alter_eq, Hrow. simpl. eauto.
Qed.

(** What [executeTransition] does, by the ways it can go. *)
Lemma executeTransition_run now leadId newStage reason md db :
  match fst (findById leadId db) with
  | Ok (Some lead) =>
      match isValidTransition (stage lead) newStage with
      | Ok true =>
          match writeTransition now leadId (stage lead) newStage reason md db with
          | (Ok _, db') =>
              executeTransition now leadId newStage reason md db
              = (Ok {| success := true;
                       leadId := leadId;
                       oldStage := stage lead;
                       newStage := newStage;
                       reason := reason;
                       forced := false;
                       tr_timestamp := now |}, db')
          | (Throw e, _) =>
              executeTransition now leadId newStage reason md db = (Throw e, db)
          end
      | Ok false =>
          executeTransition now leadId newStage reason md db
          = (Throw (Error ("Invalid transition from " +:+ stage lead
                             +:+ " to " +:+ newStage)), db)
      | Throw e =>
          executeTransition now leadId newStage reason md db = (Throw e, db)
      end
  | _ =>
      executeTransition now leadId newStage reason md db
      = (Throw (Error "Lead not found"), db)
  end.
Proof.
  unfold executeTransition, bind, findById. simpl.
  destruct (leads db !! leadId) as [row |]; simpl; [| reflexivity].
  destruct (isValidTransition _ newStage) as [[|] | e]; simpl; try reflexivity.
  match goal with
  | |- context [writeTransition ?a ?b ?c ?d ?e ?f ?g] =>
      pose proof (writeTransition_run a b c d e f g) as W;
      destruct (writeTransition a b c d e f g) as [[[] | e1] db1]
  end; simpl; [reflexivity | by subst db1].
Qed.

(** What a successful [executeTransition] went through. *)
Lemma executeTransition_success now leadId newStage reason md db t db' :
  executeTransition now leadId newStage reason md db = (Ok t, db') ->
  exists row,
    leads db !! leadId = Some row
    /\ isValidTransition (stage (newLead row)) newStage = Ok true
    /\ writeTransition now leadId (stage (newLead row)) newStage reason md db
       = (Ok tt, db')
    /\ t = {| success := true;
              leadId := leadId;
              oldStage := stage (newLead row);
              newStage := newStage;
              reason := reason;
              forced := false;
              tr_timestamp := now |}.
Proof.
  intros H. pose proof (executeTransition_run now leadId newStage reason md db) as R.
  unfold findById in R. cbn [fst] in R.
  destruct (leads db !! leadId) as [row |] eqn:Hrow;
    cbn [fmap option_fmap option_map] in R; [| congruence].
  exists row. split; [reflexivity |].
  destruct (isValidTransition (stage (newLead row)) newStage) as [[|] | e1];
    [| congruence | congruence].
  destruct (writeTransition now leadId (stage (newLead row)) newStage reason md db)
    as [[[] | e1] db1]; [| congruence].
  rewrite R in H. injection H as <- <-. auto.
Qed.

Lemma executeTransition_throw_unchanged now leadId newStage reason md db e db' :
  executeTransition now leadId newStage reason md db = (Throw e, db') -> db' = db.
Proof.
  intros H. pose proof (executeTransition_run now leadId newStage reason md db) as R.
  destruct (fst (findById leadId db)) as [[lead |] | e0].
  - destruct (isValidTransition (stage lead) newStage) as [[|] | e1].
    + destruct (writeTransition now leadId (stage lead) newStage reason md db)
        as [[[] | e1] db1]; congruence.
    + congruence.
    + congruence.
  - congruence.
  - congruence.
Qed.

Lemma executeTransition_audit now leadId newStage reason md db :
  match executeTransition now leadId newStage reason md db with
  | (Ok t, db') =>
      StageTransitionEngine.leadId t = leadId
      /\ StageTransitionEngine.newStage t = newStage
      /\ isValidTransition (oldStage t) newStage = Ok true
      /\ stage_transitions db' =
           (stage_transitions db ++
              [ {| tr_lead_id := leadId;
                   from_stage := oldStage t;
                   to_stage := newStage;
                   trigger_reason := reason;
                   tr_metadata := md;
                   transition_at := now |} ])%list
  | (Throw _, db') => db' = db
  end.
Proof.
  pose proof (executeTransition_run now leadId newStage reason md db) as R.
  destruct (fst (findById leadId db)) as [[lead |] | e0].
  - destruct (isValidTransition (stage lead) newStage) as [[|] | e1] eqn:V.
    + pose proof (writeTransition_run now leadId (stage lead) newStage reason md db)
        as W.
      destruct (writeTransition now leadId (stage lead) newStage reason md db)
        as [[[] | e1] db1]; rewrite R; simpl; [| reflexivity].
      destruct W as (_ & _ & _ & _ & Hst & _). auto.
    + by rewrite R.
    + by rewrite R.
  - by rewrite R.
  - by rewrite R.
Qed.

(** [evaluateProgression] only reads. *)
Lemma evaluateProgression_reads now leadId cfg db :
  snd (evaluateProgression now leadId cfg db) = db.
Proof.
  unfold evaluateProgression, bind, findById, getLeadEvents. simpl.
  destruct (leads db !! leadId) as [row |]; simpl; [| reflexivity].
  match goal with
  | |- context [Js.get ?rules ?k] => destruct (Js.get rules k); reflexivity
  end.
Qed.

Lemma autoProgressLead_audit now leadId cfg db :
  match autoProgressLead now leadId cfg db with
  | (Ok (Progressed t _), db') =>
      StageTransitionEngine.leadId t = leadId
      /\ isValidTransition (oldStage t) (newStage t) = Ok true
      /\ exists reason md,
           stage_transitions db' =
             (stage_transitions db ++
                [ {| tr_lead_id := leadId;
                     from_stage := oldStage t;
                     to_stage := newStage t;
                     trigger_reason := reason;
                     tr_metadata := md;
                     transition_at := now |} ])%list
  | (_, db') => db' = db
  end.
Proof.
  unfold autoProgressLead, bind.
  pose proof (evaluateProgression_reads now leadId cfg db) as Hr.
  destruct (evaluateProgression now leadId cfg db) as [[p | e] db0];
    simpl in Hr; subst db0; [| reflexivity].
  destruct p as [r | [|] next cur ev lid]; simpl; try reflexivity.
  match goal with
  | |- context [executeTransition now leadId next ?r ?m db] =>
      pose proof (executeTransition_audit now leadId next r m db) as A;
      destruct (executeTransition now leadId next r m db) as [[t | e] db1]
  end; simpl; [| exact A].
  destruct A as (Hid & Hnew & Hv & Hst). rewrite Hnew.
  repeat split; try assumption. eauto.
Qed.

Lemma forceTransition_audit now leadId newStage reason md db :
  match forceTransition now leadId newStage reason md db with
  | (Ok t, db') =>
      StageTransitionEngine.leadId t = leadId
      /\ StageTransitionEngine.newStage t = newStage
      /\ (exists lead, fst (findById leadId db) = Ok (Some lead)
                        /\ oldStage t = stage lead)
      /\ stage_transitions db' =
           (stage_transitions db ++
              [ {| tr_lead_id := leadId;
                   from_stage := oldStage t;
                   to_stage := newStage;
                   trigger_reason := reason;
                   tr_metadata := setProp "forced_transition" (MetaBool true) md;
                   transition_at := now |} ])%list
  | (Throw _, db') => db' = db
  end.
Proof.
  unfold forceTransition, bind, findById. simpl.
  destruct (leads db !! leadId) as [row |]; simpl; [| reflexivity].
  match goal with
  | |- context [writeTransition ?a ?b ?c ?d ?e ?f ?g] =>
      pose proof (writeTransition_run a b c d e f g) as W;
      destruct (writeTransition a b c d e f g) as [[[] | e1] db1]
  end; simpl; [| exact W].
  destruct W as (_ & _ & _ & _ & Hst & _).
  repeat split; eauto.
Qed.

(** ** Validation and execution *)

Lemma executeTransition_rejects now db leadId lead newStage reason md :
  fst (findById leadId db) = Ok (Some lead) ->
  isValidTransition (stage lead) newStage = Ok false ->
  executeTransition now leadId newStage reason md db
  = (Throw (Error ("Invalid transition from " +:+ stage lead
                     +:+ " to " +:+ newStage)), db).
Proof.
  intros Hlead Hv.
  pose proof (executeTransition_run now leadId newStage reason md db) as R.
  by rewrite Hlead, Hv in R.
Qed.

Lemma findById_stored leadId db lead :
  fst (findById leadId db) = Ok (Some lead) ->
  exists row, leads db !! leadId = Some row /\ lead = newLead row.
Proof.
  unfold findById. simpl.
  destruct (leads db !! leadId) as [row |]; [| discriminate].
  intros [= <-]. eauto.
Qed.

(** A valid transition of a stored lead, with a reason that fits its
    column, is accepted by the store. *)
Lemma executeTransition_accepts now db leadId lead newStage reason md :
  fst (findById leadId db) = Ok (Some lead) ->
  (String.length reason <= 255)%nat ->
  isValidTransition (stage lead) newStage = Ok true ->
  exists db',
    executeTransition now leadId newStage reason md db
    = (Ok {| success := true;
             leadId := leadId;
             oldStage := stage lead;
             newStage := newStage;
             reason := reason;
             forced := false;
             tr_timestamp := now |}, db')
    /\ writeTransition now leadId (stage lead) newStage reason md db = (Ok tt, db').
Proof.
  intros Hlead Hreason V.
  pose proof (executeTransition_run now leadId newStage reason md db) as R.
  rewrite Hlead, V in R.
  destruct (findById_stored _ _ _ Hlead) as (row & Hrow & _).
  destruct (isValidTransition_stage_check _ _ V) as [Hfrom Hto].
  destruct (writeTransition_ok now leadId (stage lead) newStage reason md db)
    as (db' & W); eauto using leads_stage_check_varchar.
  { by apply Nat.leb_le. }
  rewrite W in R. eauto.
Qed.



(** C2. [Customer] is terminal: [isValidTransition 'Customer' s] is
    [false] for every [s], [getNextStages 'Customer'] is the empty array,
    and [executeTransition] on a lead in stage [Customer] always throws and
    writes nothing. *)
Theorem Customer_is_terminal :
  (forall s, isValidTransition "Customer" s = Ok false)
  /\ getNextStages "Customer" = Own []
  /\ (forall now db leadId lead newStage reason md,
        fst (findById leadId db) = Ok (Some lead) ->
        stage lead = "Customer" ->
        executeTransition now leadId newStage reason md db
        = (Throw (Error ("Invalid transition from Customer to " +:+ newStage)), db)).
Proof.
  assert (forall s, isValidTransition "Customer" s = Ok false) as H
    by (intros s; reflexivity).
  split; [exact H |]. split; [reflexivity |].
  intros now db leadId lead newStage reason md Hlead Hstage.
  pose proof (executeTransition_rejects now db leadId lead newStage reason md
                Hlead) as Hrej.
  rewrite Hstage in Hrej. exact (Hrej (H newStage)).
Qed.

Lemma Customer_is_terminal_witness :
  isValidTransition "Customer" "User" = Ok false
  /\ getNextStages "Customer" = Own []
  /\ executeTransition 0 "lead-2" "Qualified_Lead" "downgrade" [] Sample.db
     = (Throw (Error "Invalid transition from Customer to Qualified_Lead"),
        Sample.db).
Proof.
  destruct Customer_is_terminal as (Hv & Hn & Hx).
  split; [exact (Hv "User") |]. split; [exact Hn |].
  apply (Hx 0 Sample.db "lead-2" Sample.leadCustomer "Qualified_Lead" "downgrade" []).
  - vm_compute. reflexivity.
  - reflexivity.
Defined.

(** C10. At a stage name that [Object.prototype] defines, the lookup in
    the adjacency table is truthy and is not an array: with [fromStage]
    equal to ['constructor'], [isValidTransition] throws a [TypeError]
    instead of returning [false], and [getNextStages] returns a function
    instead of the empty array. *)
Theorem isValidTransition_inherited_key :
  isValidTransition "constructor" "User"
  = Throw (TypeError "this.validTransitions[fromStage].includes is not a function")
  /\ getNextStages "constructor" = Function "constructor"
  /\ getNextStages "constructor" <> Own [].
Proof. split; [reflexivity |]. split; [reflexivity | discriminate]. Qed.

(** ** The audit trail *)

(** C7, as the code has it.  [executeTransition] and [autoProgressLead]
    append one audit row per successful stage change and nothing
    otherwise, and the row's [from_stage] differs from its [to_stage].
    [forceTransition] also appends exactly one row per successful call,
    from the lead's current stage to the requested stage, whatever the
    two are. *)
Theorem transitions_append_one_record now leadId newStage reason md cfg db :
  (match executeTransition now leadId newStage reason md db with
   | (Ok t, db') =>
       exists rec,
         stage_transitions db' = (stage_transitions db ++ [rec])%list
         /\ from_stage rec = oldStage t /\ to_stage rec = newStage
         /\ from_stage rec <> to_stage rec
   | (Throw _, db') => stage_transitions db' = stage_transitions db
   end)
  /\ (match autoProgressLead now leadId cfg db with
      | (Ok (Progressed t _), db') =>
          exists rec,
            stage_transitions db' = (stage_transitions db ++ [rec])%list
            /\ from_stage rec = oldStage t
            /\ to_stage rec = StageTransitionEngine.newStage t
            /\ from_stage rec <> to_stage rec
      | (_, db') => stage_transitions db' = stage_transitions db
      end)
  /\ (match forceTransition now leadId newStage reason md db with
      | (Ok t, db') =>
          exists rec,
            stage_transitions db' = (stage_transitions db ++ [rec])%list
            /\ (exists lead, fst (findById leadId db) = Ok (Some lead)
                             /\ from_stage rec = stage lead)
            /\ to_stage rec = newStage
      | (Throw _, db') => stage_transitions db' = stage_transitions db
      end).
Proof.
  split; [| split].
  - pose proof (executeTransition_audit now leadId newStage reason md db) as A.
    destruct (executeTransition now leadId newStage reason md db) as [[t | e] db'].
    + destruct A as (_ & _ & Hv & Hst).
      eexists. split; [exact Hst |]. simpl.
      repeat split. by apply isValidTransition_true_neq.
    + by subst.
  - pose proof (autoProgressLead_audit now leadId cfg db) as A.
    destruct (autoProgressLead now leadId cfg db) as [[[r ev | t ev] | e] db'].
    + by subst.
    + destruct A as (_ & Hv & reason' & md' & Hst).
      eexists. split; [exact Hst |]. simpl.
      repeat split. by apply isValidTransition_true_neq.
    + by subst.
  - pose proof (forceTransition_audit now leadId newStage reason md db) as A.
    destruct (forceTransition now leadId newStage reason md db) as [[t | e] db'].
    + destruct A as (_ & _ & (lead & Hl & Hold) & Hst).
      eexists. split; [exact Hst |]. simpl. split; [| reflexivity].
      exists lead. by rewrite <- Hold.
    + by subst.
Qed.

(** C7 fails for [forceTransition]: forcing the lead [lead-1], which is
    in stage [User], to [User] writes an audit row from [User] to
    [User]. *)
Lemma forceTransition_writes_self_loop :
  ~ (forall rec,
       rec ∈ stage_transitions
               (snd (forceTransition 0 "lead-1" "User" "manual override" []
                       Sample.db)) ->
       from_stage rec <> to_stage rec).
Proof.
  intros H.
  apply (H {| tr_lead_id := "lead-1";
              from_stage := "User";
              to_stage := "User";
              trigger_reason := "manual override";
              tr_metadata := [("forced_transition", MetaBool true)];
              transition_at := 0 |}).
  - vm_compute. apply list_elem_of_here.
  - reflexivity.
Qed.

(** ** Batch processing *)

Lemma autoProgressLead_entryOf now leadId cfg db result db' :
  autoProgressLead now leadId cfg db = (Ok result, db') ->
  entryOf leadId result = EntryResult leadId result.
Proof.
  intros H. pose proof (autoProgressLead_audit now leadId cfg db) as A.
  rewrite H in A. destruct result as [r ev | t ev]; [reflexivity |].
  destruct A as (Hid & _). simpl. by rewrite Hid.
Qed.

(** One lead of a batch. *)
Lemma batchAutoProgress_cons now leadId rest cfg db :
  batchAutoProgress now (leadId :: rest) cfg db
  = let r := autoProgressLead now leadId cfg db in
    let entry :=
      match fst r with
      | Ok result => EntryResult leadId result
      | Throw e => EntryError leadId (Js.message e)
      end in
    (entry :: fst (batchAutoProgress now rest cfg (snd r)),
     snd (batchAutoProgress now rest cfg (snd r))).
Proof.
  simpl.
  destruct (autoProgressLead now leadId cfg db) as [[result | e] db'] eqn:E; simpl.
  - rewrite (autoProgressLead_entryOf _ _ _ _ _ _ E).
    by destruct (batchAutoProgress now rest cfg db').
  - by destruct (batchAutoProgress now rest cfg db').
Qed.

Lemma batchAutoProgress_ids now leadIds cfg db :
  map be_leadId (fst (batchAutoProgress now leadIds cfg db)) = leadIds.
Proof.
  revert db. induction leadIds as [| leadId rest IH]; intros db; [reflexivity |].
  rewrite batchAutoProgress_cons. cbn -[batchAutoProgress].
  rewrite IH. f_equal.
  by destruct (fst (autoProgressLead now leadId cfg db)).
Qed.

Lemma batchAutoProgress_app now before after cfg db :
  batchAutoProgress now (before ++ after)%list cfg db
  = let r := batchAutoProgress now before cfg db in
    ((fst r ++ fst (batchAutoProgress now after cfg (snd r)))%list,
     snd (batchAutoProgress now after cfg (snd r))).
Proof.
  revert db. induction before as [| leadId rest IH]; intros db.
  - simpl. by destruct (batchAutoProgress now after cfg db).
  - change ((leadId :: rest) ++ after)%list with (leadId :: (rest ++ after))%list.
    rewrite !batchAutoProgress_cons. cbn -[batchAutoProgress].
    by rewrite IH.
Qed.

(** C8, as the code has it.  The lead ids of the results are the input
    list itself: the result array has the input's length, its entry at
    index [i] carries the input's id at index [i], and it has no duplicate
    id when the input has none.  A lead whose processing throws yields
    [{ leadId, progressed: false, error }], and the entries of the leads
    after it are those of the batch continued from the store it left. *)
Theorem batchAutoProgress_aligned now leadIds cfg db :
  let results := fst (batchAutoProgress now leadIds cfg db) in
  map be_leadId results = leadIds
  /\ length results = length leadIds
  /\ (forall (i : nat) leadId,
        leadIds !! i = Some leadId ->
        exists entry, results !! i = Some entry /\ be_leadId entry = leadId)
  /\ (NoDup leadIds -> NoDup (map be_leadId results))
  /\ (forall before leadId after,
        leadIds = (before ++ leadId :: after)%list ->
        let db1 := snd (batchAutoProgress now before cfg db) in
        let r := autoProgressLead now leadId cfg db1 in
        exists entry,
          results !! length before = Some entry
          /\ (forall result, fst r = Ok result -> entry = EntryResult leadId result)
          /\ (forall e, fst r = Throw e ->
                entry = EntryError leadId (Js.message e)
                /\ be_progressed entry = false)
          /\ drop (S (length before)) results
             = fst (batchAutoProgress now after cfg (snd r))).
Proof.
  intros results. subst results.
  pose proof (batchAutoProgress_ids now leadIds cfg db) as Hids.
  split; [exact Hids |].
  split; [by rewrite <- Hids at 2; rewrite length_map |].
  split.
  { intros i leadId Hi. rewrite <- Hids in Hi.
    rewrite list_lookup_fmap in Hi.
    destruct (fst (batchAutoProgress now leadIds cfg db) !! i) as [entry |];
      [| discriminate].
    exists entry. split; [reflexivity |]. by injection Hi. }
  split; [by rewrite Hids |].
  intros before leadId after -> db1 r.
  rewrite batchAutoProgress_app. cbn -[batchAutoProgress].
  rewrite batchAutoProgress_cons. cbn -[batchAutoProgress].
  fold db1. fold r.
  assert (length (fst (batchAutoProgress now before cfg db)) = length before) as Hlen.
  { rewrite <- (batchAutoProgress_ids now before cfg db) at 2.
    by rewrite length_map. }
  eexists. split.
  { rewrite lookup_app_r by lia. rewrite Hlen, Nat.sub_diag. reflexivity. }
  split; [by intros result -> |].
  split; [by intros e -> |].
  rewrite drop_app_ge by lia. rewrite Hlen.
  replace (S (length before) - length before)%nat with 1%nat by lia.
  reflexivity.
Qed.

Lemma batchAutoProgress_aligned_witness :
  let results :=
    fst (batchAutoProgress 0 ["lead-1"; "missing"; "lead-2"] None Sample.db) in
  NoDup (map be_leadId results)
  /\ results !! 1%nat = Some (EntryError "missing" "Lead not found")
  /\ length results = 3%nat.
Proof.
  destruct (batchAutoProgress_aligned 0 ["lead-1"; "missing"; "lead-2"] None
              Sample.db) as (Hids & Hlen & _ & Hnd & Hiso).
  split; [| split].
  - apply Hnd. apply (bool_decide_unpack _). vm_compute. exact I.
  - destruct (Hiso ["lead-1"] "missing" ["lead-2"] eq_refl)
      as (entry & Hentry & _ & Herr & _).
    destruct (Herr (Error "Lead not found")) as [-> _].
    + vm_compute. reflexivity.
    + exact Hentry.
  - exact Hlen.
Defined.

(** C8 fails on an input that repeats an id: the results repeat it
    too. *)
Lemma batchAutoProgress_repeats_ids :
  ~ NoDup (map be_leadId
             (fst (batchAutoProgress 0 ["lead-1"; "lead-1"] None Sample.db))).
Proof.
  rewrite batchAutoProgress_ids. intros H.
  apply NoDup_cons in H as [H _]. apply H. apply list_elem_of_here.
Qed.

(** * Properties of the engagement scoring engine *)

Import EngagementScoringEngine.

(** ** Threshold classification *)

Lemma Qle_bool_mono (t s1 s2 : Q) :
  (s1 <= s2)%Q -> Qle_bool t s1 = true -> Qle_bool t s2 = true.
Proof.
  intros Hle H. apply Qle_bool_iff. apply Qle_bool_iff in H.
  eapply Qle_trans; eassumption.
Qed.

(** C9. [getRecommendedStage] returns one of the four stages for every
    score and every rule set, and a larger score is never recommended an
    earlier stage of the funnel. *)
Theorem getRecommendedStage_total_monotone (rules : ScoringRules) :
  (forall s,
     getRecommendedStage s rules
       ∈ ["User"; "Engaged_Lead"; "Qualified_Lead"; "Customer"])
  /\ (forall s1 s2,
        (s1 <= s2)%Q ->
        exists r1 r2,
          stageOrder (getRecommendedStage s1 rules) = Some r1
          /\ stageOrder (getRecommendedStage s2 rules) = Some r2
          /\ r1 <= r2).
Proof.
  split.
  - intros s. unfold getRecommendedStage.
    repeat match goal with
           | |- context [Qle_bool ?a ?b] => destruct (Qle_bool a b)
           end; set_solver.
  - intros s1 s2 Hle. unfold getRecommendedStage.
    pose proof (Qle_bool_mono (customer_threshold rules) s1 s2 Hle) as Hc.
    pose proof (Qle_bool_mono (qualified_lead_threshold rules) s1 s2 Hle) as Hq.
    pose proof (Qle_bool_mono (engaged_lead_threshold rules) s1 s2 Hle) as He.
    destruct (Qle_bool (customer_threshold rules) s1);
      [rewrite (Hc eq_refl); do 2 eexists; repeat split; lia |].
    destruct (Qle_bool (qualified_lead_threshold rules) s1);
      [rewrite (Hq eq_refl);
       destruct (Qle_bool (customer_threshold rules) s2);
       do 2 eexists; repeat split; lia |].
    destruct (Qle_bool (engaged_lead_threshold rules) s1);
      [rewrite (He eq_refl) |];
      destruct (Qle_bool (customer_threshold rules) s2);
      destruct (Qle_bool (qualified_lead_threshold rules) s2);
      try destruct (Qle_bool (engaged_lead_threshold rules) s2);
      do 2 eexists; repeat split; lia.
Qed.

Lemma getRecommendedStage_total_monotone_witness :
  getRecommendedStage 40 defaultScoringRules
    ∈ ["User"; "Engaged_Lead"; "Qualified_Lead"; "Customer"]
  /\ exists r1 r2,
       stageOrder (getRecommendedStage 40 defaultScoringRules) = Some r1
       /\ stageOrder (getRecommendedStage 160 defaultScoringRules) = Some r2
       /\ r1 <= r2.
Proof.
  destruct (getRecommendedStage_total_monotone defaultScoringRules) as [Ht Hm].
  split; [apply Ht |].
  apply Hm. vm_compute. discriminate.
Defined.

(** ** The total score *)

Lemma filter_andb {A} (f g : A -> bool) (l : list A) :
  List.filter (fun x => f x && g x) l = List.filter g (List.filter f l).
Proof.
  induction l as [| x l IH]; [reflexivity |]. simpl.
  destruct (f x); simpl; [destruct (g x) |]; by rewrite IH.
Qed.

(** The events the score is computed from are a function of the lead's
    own rows. *)
Lemma eventsInWindow_own_rows now leadId rules db :
  fst (eventsInWindow now leadId rules db)
  = Ok (orderBy (fun a b => timestamp a <=? timestamp b)
          (List.filter
             (fun e =>
                toDate (inject_Z now
                        - engagement_window rules * inject_Z (60 * 60 * 1000))
                <=? timestamp e)
             (List.filter (fun e => String.eqb (lead_id e) leadId)
                (engagement_events db)))).
Proof. unfold eventsInWindow. simpl. by rewrite filter_andb. Qed.

Lemma calculateLeadScore_run now leadId rules db :
  calculateLeadScore now leadId rules db
  = match fst (eventsInWindow now leadId rules db) with
    | Ok events => (Ok (scoreOf now rules events), db)
    | Throw e => (Throw e, db)
    end.
Proof. reflexivity. Qed.

(** C3. With the clock held at [now], the score of a lead is a function
    of the rule set and of the lead's event rows: two runs over stores
    that hold the same rows for the lead return the same result, and the
    total score is a non-negative integer. *)
Theorem calculateLeadScore_deterministic_nonneg now leadId rules db1 db2 :
  List.filter (fun e => String.eqb (lead_id e) leadId) (engagement_events db1)
  = List.filter (fun e => String.eqb (lead_id e) leadId) (engagement_events db2) ->
  exists r,
    fst (calculateLeadScore now leadId rules db1) = Ok r
    /\ fst (calculateLeadScore now leadId rules db2) = Ok r
    /\ 0 <= total_score r.
Proof.
  intros Hrows.
  rewrite !calculateLeadScore_run, !eventsInWindow_own_rows, Hrows.
  eexists. split; [reflexivity |]. split; [reflexivity |].
  cbn [total_score scoreOf]. apply Z.le_max_l.
Qed.

Lemma calculateLeadScore_deterministic_nonneg_witness :
  exists r,
    fst (calculateLeadScore Sample.now "lead-1" defaultScoringRules
           Sample.dbTwoLogins) = Ok r
    /\ fst (calculateLeadScore Sample.now "lead-1" defaultScoringRules
              Sample.dbTwoLeads) = Ok r
    /\ 0 <= total_score r.
Proof.
  apply (calculateLeadScore_deterministic_nonneg Sample.now "lead-1"
           defaultScoringRules Sample.dbTwoLogins Sample.dbTwoLeads).
  vm_compute. reflexivity.
Defined.

(** ** Bonuses *)

Lemma calculateConsecutiveDays_nil event :
  calculateConsecutiveDays event [] = 1.
Proof. reflexivity. Qed.

(** C4. The second login of a lead, scored against the history that
    [calculateLeadScore] passes (the one earlier login), keeps the
    multiplier [1]: the repeat decay is not applied to it, where
    [repeat_engagement_decay ^ 1] would give [8] instead of [10].  The
    third login is scaled by [repeat_engagement_decay ^ 1], where two prior
    events would call for the exponent [2]. *)
Theorem repeat_decay_is_one_occurrence_late :
  let first := Sample.login "event-1" 2 false in
  let second := Sample.login "event-2" 1 false in
  let third := Sample.login "event-3" 0 false in
  let decay := repeat_engagement_decay defaultScoringRules in
  (bonusMultiplier second [first] defaultScoringRules == 1)%Q
  /\ applyEngagementBonuses 10 second [first] defaultScoringRules = 10
  /\ Math_round (10 * Math_pow decay 1) = 8
  /\ (bonusMultiplier third [first; second] defaultScoringRules
      == Math_pow decay 1)%Q
  /\ ~ (bonusMultiplier third [first; second] defaultScoringRules
        == Math_pow decay 2)%Q
  /\ (breakdown <$> match fst (calculateLeadScore Sample.now "lead-1"
                                defaultScoringRules Sample.dbTwoLogins) with
                    | Ok r => Some r
                    | Throw _ => None
                    end)
     = Some [ {| es_event_id := "event-1"; base_score := 10;
                 decayed_score := 10; final_score := 12 |};
              {| es_event_id := "event-2"; base_score := 10;
                 decayed_score := 10; final_score := 10 |} ].
Proof.
  cbv zeta. repeat split; try (vm_compute; reflexivity).
  vm_compute. discriminate.
Qed.

(** Without an event of the same type in the history there is no earlier
    one either, and the repeat decay does not apply. *)
Lemma no_sameType_filters event eventHistory :
  (forall e, e ∈ eventHistory -> sameType event e = false) ->
  List.filter (fun e => sameType event e && (timestamp e <? timestamp event))
    eventHistory = []
  /\ List.filter (sameType event) eventHistory = [].
Proof.
  intros H. induction eventHistory as [| e l IH]; [done |]. simpl.
  rewrite (H e) by apply list_elem_of_here. simpl.
  apply IH. intros e' He'. apply H. by apply list_elem_of_further.
Qed.

Section Doubles.

Import PrimFloat.

(** C5, as the code has it.  For a high-value event with no event of its
    type in the history, the bonuses are summed into one multiplier before
    it is applied: the score is
    [round(decayedScore * (1 + high_value_action_bonus
                             + (first_time_bonus - 1) + consecutive))],
    each operation that of the doubles, in this order, where
    [consecutive] is the consecutive-days bonus
    [min(consecutiveDays * consecutive_days_bonus, 1)] when more than one
    consecutive day is counted, and is not added otherwise.  This holds
    whatever [Math.pow] computes and whatever count of days the host's
    calendar gives. *)
Theorem applyEngagementBonuses_sums_bonuses
    (Math_pow : float -> float -> float)
    (calculateConsecutiveDays : EngagementEvent -> list EngagementEvent -> float)
    (eventScore : float) (event : EngagementEvent)
    (eventHistory : list EngagementEvent) (rules : Binary64.BonusRules) :
  highValue event = true ->
  (forall e, e ∈ eventHistory -> sameType event e = false) ->
  let days := calculateConsecutiveDays event eventHistory in
  let summed :=
    (1 + Binary64.high_value_action_bonus rules
     + (Binary64.first_time_bonus rules - 1))%float in
  Binary64.applyEngagementBonuses Math_pow calculateConsecutiveDays
    eventScore event eventHistory rules
  = Binary64.Math_round
      (eventScore
       * (if (1 <? days)%float
          then summed
               + Binary64.Math_min
                   (days * Binary64.consecutive_days_bonus rules) 1
          else summed))%float.
Proof.
  intros Hhv Hnone days summed.
  destruct (no_sameType_filters event eventHistory Hnone) as [Hprev Hsame].
  unfold Binary64.applyEngagementBonuses.
  rewrite Hhv, Hprev, Hsame. cbn [length Nat.eqb Nat.ltb Nat.leb].
  subst days summed. unfold one. reflexivity.
Qed.

(** A first high-value login with decayed score [25] on the sixth
    consecutive day, under the default rules: the doubles give
    [25 * 2.3 = 57.49999999999999] and the score [57]. *)
Lemma applyEngagementBonuses_sums_bonuses_witness :
  Binary64.applyEngagementBonuses (fun x _ => x)
    (fun e h => Binary64.ofZ (calculateConsecutiveDays e h))
    25 (Sample.login "event-6" 0 true) Sample.fiveDays
    (Binary64.bonusRules defaultScoringRules)
  = 57%float.
Proof.
  rewrite (applyEngagementBonuses_sums_bonuses (fun x _ => x)
             (fun e h => Binary64.ofZ (calculateConsecutiveDays e h))
             25 (Sample.login "event-6" 0 true) Sample.fiveDays
             (Binary64.bonusRules defaultScoringRules)).
  - vm_compute. reflexivity.
  - reflexivity.
  - intros e He. unfold Sample.fiveDays in He. simpl in He.
    repeat (apply elem_of_cons in He as [-> | He]; [reflexivity |]).
    by apply elem_of_nil in He.
Defined.

(** In the doubles too, a first high-value login with decayed score
    [10] scores [17] under the default rules, where the product of the
    two factors rounds to [18]. *)
Lemma applyEngagementBonuses_first_login_doubles :
  let rules := Binary64.bonusRules defaultScoringRules in
  Binary64.applyEngagementBonuses (fun x _ => x)
    (fun e h => Binary64.ofZ (calculateConsecutiveDays e h))
    10 (Sample.login "event-1" 1 true) [] rules
  = 17%float
  /\ Binary64.Math_round
       (10 * (1 + Binary64.high_value_action_bonus rules)
        * Binary64.first_time_bonus rules)%float
     = 18%float.
Proof. vm_compute. by split. Qed.

End Doubles.

(** C5 fails: for a first high-value login with decayed score [10] under
    the default rules the code returns [17], not
    [round(10 * (1 + 0.5) * 1.2) = 18]. *)
Lemma applyEngagementBonuses_not_a_product :
  applyEngagementBonuses 10 (Sample.login "event-1" 1 true) []
    defaultScoringRules
  <> Math_round
       (10 * (1 + high_value_action_bonus defaultScoringRules)
        * first_time_bonus defaultScoringRules)%Q.
Proof. vm_compute. discriminate. Qed.

(** ** One login *)

Lemma calculateEventScore_login event :
  event_type event = "login" ->
  calculateEventScore event defaultScoringRules = 10.
Proof.
  intros Ht. unfold calculateEventScore. rewrite Ht.
  change (String.eqb "login" "login") with true. cbv iota.
  by destruct (String.eqb (channel event) "email").
Qed.

Lemma bonusMultiplier_first event rules :
  bonusMultiplier event [] rules
  = ((if highValue event then 1 + high_value_action_bonus rules else 1)
     + (first_time_bonus rules - 1))%Q.
Proof. unfold bonusMultiplier. by destruct (highValue event). Qed.

(** C6, as the code has it.  Under the default rules, when the fetched
    history is one [login] event no older than [decay_start_hours], the
    total is the base score [10] with the first-time bonus, [12] ([17]
    when the event is high-value), plus the recent-activity bonus [5] when
    the event is no older than [recent_activity_window]. *)
Theorem calculateLeadScore_single_login now leadId db event :
  fst (eventsInWindow now leadId defaultScoringRules db) = Ok [event] ->
  event_type event = "login" ->
  (hoursAgo now (timestamp event) <= decay_start_hours defaultScoringRules)%Q ->
  exists r,
    fst (calculateLeadScore now leadId defaultScoringRules db) = Ok r
    /\ total_score r
       = (if highValue event then 17 else 12)
         + (if Qle_bool (hoursAgo now (timestamp event))
                 (recent_activity_window defaultScoringRules)
            then 5 else 0).
Proof.
  intros Hfetch Htype Hage.
  rewrite calculateLeadScore_run, Hfetch.
  eexists. split; [reflexivity |].
  unfold scoreOf. cbn [total_score scoreEvents List.filter].
  rewrite (calculateEventScore_login event Htype).
  unfold applyTimeDecay.
  apply Qle_bool_iff in Hage. rewrite Hage.
  unfold applyEngagementBonuses. rewrite bonusMultiplier_first.
  destruct (Qle_bool (hoursAgo now (timestamp event))
              (recent_activity_window defaultScoringRules));
    destruct (highValue event); vm_compute; reflexivity.
Qed.

Lemma calculateLeadScore_single_login_witness :
  exists r,
    fst (calculateLeadScore Sample.now "lead-1" defaultScoringRules
           Sample.dbOneLogin) = Ok r
    /\ total_score r = 12 + 5.
Proof.
  apply (calculateLeadScore_single_login Sample.now "lead-1" Sample.dbOneLogin
           (Sample.login "event-1" 1 false)).
  - vm_compute. reflexivity.
  - reflexivity.
  - vm_compute. discriminate.
Defined.

(** C6 fails: with one login an hour old, the default rules give [17],
    not [10]. *)
Lemma calculateLeadScore_single_login_not_10 :
  ~ (exists r,
       fst (calculateLeadScore Sample.now "lead-1" defaultScoringRules
              Sample.dbOneLogin) = Ok r
       /\ total_score r = 10).
Proof.
  intros (r & Hr & Htotal). vm_compute in Hr. injection Hr as <-.
  vm_compute in Htotal. discriminate.
Qed.

(** * Further properties *)

(** An empty event history scores [0]: a lead with no event rows gets an
    empty breakdown, no recent-activity bonus and the total [0]. *)
Theorem calculateLeadScore_no_events now leadId rules db :
  List.filter (fun e => String.eqb (lead_id e) leadId) (engagement_events db) = [] ->
  exists r,
    fst (calculateLeadScore now leadId rules db) = Ok r
    /\ total_score r = 0
    /\ breakdown r = []
    /\ recent_activity_bonus r = None.
Proof.
  intros Hrows.
  rewrite calculateLeadScore_run, eventsInWindow_own_rows, Hrows.
  eexists. split; [reflexivity |]. by vm_compute.
Qed.

Lemma calculateLeadScore_no_events_witness :
  exists r,
    fst (calculateLeadScore Sample.now "lead-2" defaultScoringRules
           Sample.dbTwoLogins) = Ok r
    /\ total_score r = 0
    /\ breakdown r = []
    /\ recent_activity_bonus r = None.
Proof.
  apply (calculateLeadScore_no_events Sample.now "lead-2" defaultScoringRules
           Sample.dbTwoLogins).
  vm_compute. reflexivity.
Defined.

Lemma autoProgressLead_prefix now leadId cfg db :
  stage_transitions db
    `prefix_of` stage_transitions (snd (autoProgressLead now leadId cfg db)).
Proof.
  pose proof (autoProgressLead_audit now leadId cfg db) as A.
  destruct (autoProgressLead now leadId cfg db) as [[[r ev | t ev] | e] db'];
    simpl.
  - by subst.
  - destruct A as (_ & _ & reason & md & ->). by eexists.
  - by subst.
Qed.

(** The audit trail is append-only: after [executeTransition],
    [autoProgressLead], [forceTransition] or a whole [batchAutoProgress],
    the rows that were there are still there, in place, at the front. *)
Theorem audit_trail_append_only now leadId leadIds newStage reason md cfg db :
  stage_transitions db
    `prefix_of` stage_transitions
                  (snd (executeTransition now leadId newStage reason md db))
  /\ stage_transitions db
       `prefix_of` stage_transitions (snd (autoProgressLead now leadId cfg db))
  /\ stage_transitions db
       `prefix_of` stage_transitions
                     (snd (forceTransition now leadId newStage reason md db))
  /\ stage_transitions db
       `prefix_of` stage_transitions
                     (snd (batchAutoProgress now leadIds cfg db)).
Proof.
  split; [| split; [| split]].
  - pose proof (executeTransition_audit now leadId newStage reason md db) as A.
    destruct (executeTransition now leadId newStage reason md db)
      as [[t | e] db']; simpl.
    + destruct A as (_ & _ & _ & ->). by eexists.
    + by subst.
  - apply autoProgressLead_prefix.
  - pose proof (forceTransition_audit now leadId newStage reason md db) as A.
    destruct (forceTransition now leadId newStage reason md db)
      as [[t | e] db']; simpl.
    + destruct A as (_ & _ & _ & ->). by eexists.
    + by subst.
  - revert db. induction leadIds as [| l rest IH]; intros db; [done |].
    rewrite batchAutoProgress_cons. cbn -[batchAutoProgress].
    etransitivity; [apply (autoProgressLead_prefix now l cfg db) | apply IH].
Qed.

(** For each of the four stages, [isValidTransition] is membership in the
    array [getNextStages] returns. *)
Theorem isValidTransition_getNextStages fromStage toStage :
  fromStage ∈ ["User"; "Engaged_Lead"; "Qualified_Lead"; "Customer"] ->
  exists next,
    getNextStages fromStage = Own next
    /\ isValidTransition fromStage toStage = Ok (Js.includes next toStage).
Proof.
  intros H.
  repeat (apply elem_of_cons in H as [-> | H]; [by eexists |]).
  by apply elem_of_nil in H.
Qed.

Lemma isValidTransition_getNextStages_witness :
  exists next,
    getNextStages "Engaged_Lead" = Own next
    /\ isValidTransition "Engaged_Lead" "User" = Ok (Js.includes next "User").
Proof.
  apply (isValidTransition_getNextStages "Engaged_Lead" "User").
  apply list_elem_of_further, list_elem_of_here.
Defined.

(** A successful [executeTransition] leaves the lead in the requested
    stage, which is one of the four stages, and touches no other lead and
    no event. *)
Theorem executeTransition_updates_stage now leadId newStage reason md db t db' :
  executeTransition now leadId newStage reason md db = (Ok t, db') ->
  stage <$> leads db' !! leadId = Some newStage
  /\ newStage ∈ ["User"; "Engaged_Lead"; "Qualified_Lead"; "Customer"]
  /\ (forall other, other <> leadId -> leads db' !! other = leads db !! other)
  /\ engagement_events db' = engagement_events db.
Proof.
  intros Hexec.
  apply executeTransition_success in Hexec as (row & Hrow & V & W & _).
  pose proof (writeTransition_run now leadId (stage (newLead row)) newStage
                reason md db) as R.
  rewrite W in R. destruct R as (_ & _ & _ & _ & _ & Hev & Hst & Hother).
  split; [by apply (Hst row) |].
  split; [| split; [exact Hother | exact Hev]].
  apply isValidTransition_true_edges in V.
  repeat (apply elem_of_cons in V as [[= _ ->] | V]; [set_solver |]).
  by apply elem_of_nil in V.
Qed.

Lemma executeTransition_updates_stage_witness :
  stage <$> leads (snd (executeTransition 0 "lead-1" "Engaged_Lead" "promote" []
                          Sample.db)) !! "lead-1"
  = Some "Engaged_Lead".
Proof.
  destruct (executeTransition 0 "lead-1" "Engaged_Lead" "promote" [] Sample.db)
    as [r db'] eqn:E.
  vm_compute in E. injection E as <- <-.
  eapply (executeTransition_updates_stage 0 "lead-1" "Engaged_Lead" "promote" []
            Sample.db).
  vm_compute. reflexivity.
Defined.

Lemma record_met_iff name key d ok ev :
  (met ev = true <-> failedConditions ev = []) ->
  met (record name key d ok ev) = true
  <-> failedConditions (record name key d ok ev) = [].
Proof.
  intros H. destruct ok; simpl; [exact H |].
  split; [discriminate |]. intros E. by apply app_eq_nil in E as [_ E].
Qed.

(** An evaluation is met exactly when no condition is listed as failed. *)
Theorem evaluateConditions_met_iff now lead events c :
  met (evaluateConditions now lead events c) = true
  <-> failedConditions (evaluateConditions now lead events c) = [].
Proof.
  unfold evaluateConditions.
  repeat match goal with
         | |- context [match ?o with Some _ => _ | None => _ end] =>
             destruct o
         | |- context [if conversion_event c then _ else _] =>
             destruct (conversion_event c)
         end;
    repeat apply record_met_iff; done.
Qed.

(** A lead in [Engaged_Lead] with score [200] and six events, under a
    rule asking for a score of [150] and five events, can progress to
    [Qualified_Lead]. *)
Theorem evaluateProgression_engaged_scenario :
  exists ev,
    fst (evaluateProgression Sample.now "lead-3" (Some Sample.productConfig)
           Sample.dbEngaged)
    = Ok (Evaluated true "Qualified_Lead" "Engaged_Lead" ev "lead-3")
    /\ failedConditions ev = [].
Proof. eexists. split; vm_compute; reflexivity. Qed.

(** * Queries *)

(** ** Ordering *)

Lemma insertBy_perm {A} (before : A -> A -> bool) x l :
  insertBy before x l ≡ₚ x :: l.
Proof.
  induction l as [| y l IH]; [done |]. simpl.
  destruct (before y x); [| done].
  rewrite IH. apply Permutation_swap.
Qed.

Lemma orderBy_acc_perm {A} (before : A -> A -> bool) l acc :
  fold_left (fun acc x => insertBy before x acc) l acc ≡ₚ (acc ++ l)%list.
Proof.
  revert acc. induction l as [| x l IH]; intros acc; simpl.
  - by rewrite app_nil_r.
  - rewrite IH, insertBy_perm. simpl. apply Permutation_middle.
Qed.

Lemma orderBy_perm {A} (before : A -> A -> bool) l :
  orderBy before l ≡ₚ l.
Proof. unfold orderBy. by rewrite orderBy_acc_perm. Qed.

Section Ordered.

Context {A : Type} (before : A -> A -> bool).

(** Any two elements are ordered one way or the other. *)
Hypothesis before_total : forall a b, before a b = true \/ before b a = true.

Lemma insertBy_sorted x l :
  Sorted (fun a b => before a b = true) l ->
  Sorted (fun a b => before a b = true) (insertBy before x l).
Proof.
  induction 1 as [| y l Hs IH Hhd]; simpl.
  - by repeat constructor.
  - destruct (before y x) eqn:E.
    + constructor; [exact IH |].
      destruct l as [| z l]; simpl; [by constructor |].
      destruct (before z x); constructor; [| exact E].
      by inversion Hhd.
    + constructor; [by constructor |]. constructor.
      by destruct (before_total x y) as [H | H]; [| congruence].
Qed.

Lemma orderBy_acc_sorted l acc :
  Sorted (fun a b => before a b = true) acc ->
  Sorted (fun a b => before a b = true)
    (fold_left (fun acc x => insertBy before x acc) l acc).
Proof.
  revert acc. induction l as [| x l IH]; intros acc Hacc; [exact Hacc |].
  simpl. apply IH. by apply insertBy_sorted.
Qed.

Lemma orderBy_sorted l :
  Sorted (fun a b => before a b = true) (orderBy before l).
Proof. apply orderBy_acc_sorted. constructor. Qed.

End Ordered.

Lemma Sorted_take {A} (R : A -> A -> Prop) n l :
  Sorted R l -> Sorted R (take n l).
Proof.
  intros H. revert n. induction H as [| x l Hs IH Hhd]; intros [| n]; simpl;
    try constructor.
  - apply IH.
  - destruct Hhd as [| y l Hxy]; destruct n; simpl; by constructor.
Qed.

Lemma elem_of_List_filter {A} (f : A -> bool) (l : list A) x :
  x ∈ List.filter f l <-> x ∈ l /\ f x = true.
Proof. rewrite !list_elem_of_In. apply filter_In. Qed.

(** [getLeadEvents] returns at most [limit] events, all of them rows of
    the lead, newest first; when the lead has no more than [limit] rows,
    it returns every one of them.  It changes nothing. *)
Theorem getLeadEvents_newest_first leadId limit db :
  exists events,
    getLeadEvents leadId limit db = (Ok events, db)
    /\ (length events <= limit)%nat
    /\ (forall e, e ∈ events -> lead_id e = leadId /\ e ∈ engagement_events db)
    /\ Sorted (fun a b => timestamp b <= timestamp a) events
    /\ ((length (List.filter (fun e => String.eqb (lead_id e) leadId)
                   (engagement_events db)) <= limit)%nat ->
        events ≡ₚ List.filter (fun e => String.eqb (lead_id e) leadId)
                    (engagement_events db)).
Proof.
  eexists. split; [reflexivity |].
  set (rows := List.filter _ (engagement_events db)).
  set (sorted := orderBy _ rows).
  assert (sorted ≡ₚ rows) as Hperm by apply orderBy_perm.
  split; [rewrite length_take; lia |]. split; [| split].
  - intros e He. apply subseteq_take in He. rewrite Hperm in He.
    apply elem_of_List_filter in He as [Hin Hid].
    by apply String.eqb_eq in Hid.
  - apply Sorted_take.
    eapply Sorted_ind with
      (P := fun l => Sorted (fun a b => timestamp b <= timestamp a) l);
      [constructor | | apply (orderBy_sorted
                                (fun a b => timestamp b <=? timestamp a))].
    + intros a l _ IH Hhd. constructor; [exact IH |].
      destruct Hhd; constructor. lia.
    + intros a b. lia.
  - intros Hlen. rewrite take_ge; [exact Hperm |].
    rewrite Hperm. exact Hlen.
Qed.

Lemma getLeadEvents_newest_first_witness :
  exists events,
    getLeadEvents "lead-1" 1 Sample.dbTwoLeads = (Ok events, Sample.dbTwoLeads)
    /\ (length events <= 1)%nat
    /\ (forall e, e ∈ events ->
          lead_id e = "lead-1" /\ e ∈ engagement_events Sample.dbTwoLeads)
    /\ Sorted (fun a b => timestamp b <= timestamp a) events.
Proof.
  destruct (getLeadEvents_newest_first "lead-1" 1 Sample.dbTwoLeads)
    as (events & H1 & H2 & H3 & H4 & _).
  exists events. auto.
Defined.

Lemma Sorted_impl {A} (R S : A -> A -> Prop) l :
  (forall a b, R a b -> S a b) -> Sorted R l -> Sorted S l.
Proof.
  intros HRS. induction 1 as [| a l _ IH Hhd]; constructor; [exact IH |].
  destruct Hhd; constructor. by apply HRS.
Qed.

(** [getTransitionHistory] returns exactly the lead's audit rows, newest
    first, and changes nothing. *)
Theorem getTransitionHistory_newest_first leadId db :
  exists history,
    getTransitionHistory leadId db = (Ok history, db)
    /\ history ≡ₚ List.filter (fun r => String.eqb (tr_lead_id r) leadId)
                    (stage_transitions db)
    /\ (forall r, r ∈ history <->
                  r ∈ stage_transitions db /\ tr_lead_id r = leadId)
    /\ Sorted (fun a b => transition_at b <= transition_at a) history.
Proof.
  eexists. split; [reflexivity |].
  split; [apply orderBy_perm |]. split.
  - intros r. rewrite orderBy_perm, elem_of_List_filter.
    by rewrite String.eqb_eq.
  - eapply Sorted_impl;
      [| apply (orderBy_sorted (fun a b => transition_at b <=? transition_at a))].
    + intros a b. simpl. lia.
    + intros a b. lia.
Qed.

(** A successful [executeTransition] adds its audit row to the history
    of the lead and leaves the history of every other lead as it was. *)
Theorem executeTransition_history now leadId newStage reason md db t db' :
  executeTransition now leadId newStage reason md db = (Ok t, db') ->
  (forall other, other <> leadId ->
     fst (getTransitionHistory other db') = fst (getTransitionHistory other db))
  /\ exists history history',
       fst (getTransitionHistory leadId db) = Ok history
       /\ fst (getTransitionHistory leadId db') = Ok history'
       /\ history' ≡ₚ {| tr_lead_id := leadId;
                         from_stage := oldStage t;
                         to_stage := newStage;
                         trigger_reason := reason;
                         tr_metadata := md;
                         transition_at := now |} :: history.
Proof.
  intros Hexec.
  pose proof (executeTransition_audit now leadId newStage reason md db) as A.
  rewrite Hexec in A. destruct A as (_ & _ & _ & Hst).
  split.
  - intros other Hne. unfold getTransitionHistory. simpl.
    rewrite Hst, List.filter_app. simpl.
    destruct (String.eqb_spec leadId other); [congruence |].
    by rewrite app_nil_r.
  - do 2 eexists. split; [reflexivity |]. split; [reflexivity |].
    rewrite !orderBy_perm, Hst, List.filter_app. simpl.
    rewrite String.eqb_refl. by rewrite <- Permutation_cons_append.
Qed.

Lemma executeTransition_history_witness :
  exists history',
    fst (getTransitionHistory "lead-1"
           (snd (executeTransition 5 "lead-1" "Engaged_Lead" "promote" []
                   Sample.db))) = Ok history'
    /\ length history' = 1%nat.
Proof.
  destruct (executeTransition 5 "lead-1" "Engaged_Lead" "promote" [] Sample.db)
    as [r db'] eqn:E.
  vm_compute in E. injection E as <- <-.
  edestruct (executeTransition_history 5 "lead-1" "Engaged_Lead" "promote" []
               Sample.db) as (_ & history & history' & H1 & H2 & H3).
  { vm_compute. reflexivity. }
  exists history'. split; [exact H2 |].
  rewrite H3. vm_compute in H1. injection H1 as <-. reflexivity.
Defined.

Lemma eventsInWindow_ok now leadId rules db :
  exists events, eventsInWindow now leadId rules db = (Ok events, db).
Proof. by eexists. Qed.

(** The events a score is computed from are exactly the lead's rows at or
    after the cutoff [now - engagement_window hours], oldest first. *)
Theorem eventsInWindow_oldest_first now leadId rules db :
  let cutoffTime :=
    toDate (inject_Z now - engagement_window rules * inject_Z (60 * 60 * 1000)) in
  exists events,
    eventsInWindow now leadId rules db = (Ok events, db)
    /\ (forall e, e ∈ events <->
                  e ∈ engagement_events db /\ lead_id e = leadId
                  /\ cutoffTime <= timestamp e)
    /\ length events
       = length (List.filter
                   (fun e => String.eqb (lead_id e) leadId
                             && (cutoffTime <=? timestamp e))
                   (engagement_events db))
    /\ Sorted (fun a b => timestamp a <= timestamp b) events.
Proof.
  intros cutoffTime. eexists. split; [reflexivity |]. split; [| split].
  - intros e. rewrite orderBy_perm, elem_of_List_filter.
    rewrite andb_true_iff, String.eqb_eq, Z.leb_le. tauto.
  - by rewrite orderBy_perm.
  - eapply Sorted_impl;
      [| apply (orderBy_sorted (fun a b => timestamp a <=? timestamp b))].
    + intros a b. simpl. lia.
    + intros a b. lia.
Qed.

(** * The transition graph and the default rules *)

(** Every allowed transition moves exactly one step along the funnel,
    forwards or backwards: no stage is skipped and none is repeated. *)
Theorem isValidTransition_one_step fromStage toStage :
  isValidTransition fromStage toStage = Ok true ->
  exists r1 r2,
    stageOrder fromStage = Some r1 /\ stageOrder toStage = Some r2
    /\ (r2 = r1 + 1 \/ r2 = r1 - 1).
Proof.
  intros H%isValidTransition_true_edges.
  repeat (apply elem_of_cons in H as [[= -> ->] | H];
          [do 2 eexists; repeat split; (by left) || (by right) |]).
  by apply elem_of_nil in H.
Qed.

Lemma isValidTransition_one_step_witness :
  exists r1 r2,
    stageOrder "Qualified_Lead" = Some r1 /\ stageOrder "Engaged_Lead" = Some r2
    /\ (r2 = r1 + 1 \/ r2 = r1 - 1).
Proof.
  apply (isValidTransition_one_step "Qualified_Lead" "Engaged_Lead").
  reflexivity.
Defined.

(** Through allowed transitions every stage can be reached from [User],
    [Customer] can be reached from every stage, and nothing but
    [Customer] can be reached from [Customer]. *)
Theorem funnel_reachability :
  let step := fun a b => isValidTransition a b = Ok true in
  (forall s, s ∈ ["User"; "Engaged_Lead"; "Qualified_Lead"; "Customer"] ->
             rtc step "User" s /\ rtc step s "Customer")
  /\ (forall s, rtc step "Customer" s -> s = "Customer").
Proof.
  intros step.
  assert (step "User" "Engaged_Lead") as H1 by reflexivity.
  assert (step "Engaged_Lead" "Qualified_Lead") as H2 by reflexivity.
  assert (step "Qualified_Lead" "Customer") as H3 by reflexivity.
  split.
  - intros s Hs.
    repeat (apply elem_of_cons in Hs as [-> | Hs];
            [split; eauto using rtc_refl, rtc_l |]).
    by apply elem_of_nil in Hs.
  - intros s H. inversion H as [| ? y ? Hstep _]; [done |]. discriminate Hstep.
Qed.

Lemma funnel_reachability_witness :
  rtc (fun a b => isValidTransition a b = Ok true) "User" "Customer".
Proof.
  destruct funnel_reachability as [H _].
  apply (H "Customer"). do 3 apply list_elem_of_further. apply list_elem_of_here.
Defined.

(** What [evaluateProgression] returns for a stored lead whose stage has
    a rule of its own in the rules in force. *)
Lemma evaluateProgression_own now leadId cfg db lead rule :
  fst (findById leadId db) = Ok (Some lead) ->
  Js.get (match cfg with
          | Some {| progression_rules := Some rules |} => rules
          | _ => defaultRules
          end) (stage lead) = Own rule ->
  exists events,
    fst (getLeadEvents leadId 1000 db) = Ok events
    /\ evaluateProgression now leadId cfg db
       = (Ok (Evaluated
                (met (evaluateConditions now lead events (conditions rule)))
                (to rule) (stage lead)
                (evaluateConditions now lead events (conditions rule)) leadId),
          db).
Proof.
  intros Hf Hrule. eexists. split; [reflexivity |].
  unfold findById in Hf. simpl in Hf.
  unfold evaluateProgression, bind, findById, getLeadEvents.
  destruct (leads db !! leadId) as [row |]; [| discriminate].
  simpl in Hf. injection Hf as <-.
  cbn [fmap option_fmap option_map fst snd]. cbv beta iota.
  rewrite Hrule. reflexivity.
Qed.

Lemma evaluateProgression_no_rule now leadId cfg db lead :
  fst (findById leadId db) = Ok (Some lead) ->
  Js.get (match cfg with
          | Some {| progression_rules := Some rules |} => rules
          | _ => defaultRules
          end) (stage lead) = Undefined ->
  evaluateProgression now leadId cfg db
  = (Ok (NoRule "No progression rule defined"), db).
Proof.
  intros Hf Hrule.
  unfold findById in Hf. simpl in Hf.
  unfold evaluateProgression, bind, findById, getLeadEvents.
  destruct (leads db !! leadId) as [row |]; [| discriminate].
  simpl in Hf. injection Hf as <-.
  cbn [fmap option_fmap option_map fst snd]. cbv beta iota.
  rewrite Hrule. reflexivity.
Qed.

(** Each default rule names an allowed transition out of its stage, one
    step forward in the funnel. *)
Lemma defaultRules_forward s rule :
  Js.getOwn defaultRules s = Some rule ->
  isValidTransition s (to rule) = Ok true
  /\ stageOrder (to rule) = (fun r => r + 1) <$> stageOrder s.
Proof.
  unfold defaultRules. simpl. intros H.
  case_eqb; try discriminate; inversion H; by split.
Qed.

Lemma evaluateProgression_no_rule_default now leadId db lead :
  fst (findById leadId db) = Ok (Some lead) ->
  stage lead ∈ ["User"; "Engaged_Lead"; "Qualified_Lead"; "Customer"] ->
  Js.getOwn defaultRules (stage lead) = None ->
  autoProgressLead now leadId None db
  = (Ok (NotProgressed "Conditions not met" None), db).
Proof.
  intros Hf Hs Hown.
  unfold autoProgressLead, bind.
  rewrite (evaluateProgression_no_rule now leadId None db lead Hf); [done |].
  repeat (apply elem_of_cons in Hs as [Hs | Hs];
          [rewrite Hs in Hown |- *; try discriminate Hown; reflexivity |]).
  by apply elem_of_nil in Hs.
Qed.

(** Under the default rules, [autoProgressLead] on a stored lead in one
    of the four stages never throws.  It either reports that the lead did
    not progress and leaves the store as it was, or moves the lead exactly
    one step forward in the funnel and stores the new stage. *)
Theorem autoProgressLead_default_rules now leadId db lead :
  fst (findById leadId db) = Ok (Some lead) ->
  stage lead ∈ ["User"; "Engaged_Lead"; "Qualified_Lead"; "Customer"] ->
  exists r db',
    autoProgressLead now leadId None db = (Ok r, db')
    /\ match r with
       | NotProgressed _ _ => db' = db
       | Progressed t _ =>
           oldStage t = stage lead
           /\ stageOrder (newStage t) = (fun r => r + 1) <$> stageOrder (stage lead)
           /\ stage <$> leads db' !! leadId = Some (newStage t)
       end.
Proof.
  intros Hf Hs.
  destruct (Js.getOwn defaultRules (stage lead)) as [rule |] eqn:Hown.
  - destruct (defaultRules_forward _ _ Hown) as [Hvalid Hfwd].
    destruct (evaluateProgression_own now leadId None db lead rule Hf)
      as (events & _ & Hev).
    { unfold Js.get. by rewrite Hown. }
    unfold autoProgressLead, bind. rewrite Hev.
    destruct (met (evaluateConditions now lead events (conditions rule)));
      [| by do 2 eexists].
    match goal with
    | |- context [executeTransition now leadId (to rule) ?r ?m db] =>
        destruct (executeTransition_accepts now db leadId lead (to rule) r m Hf)
          as (db' & -> & Hw); [vm_compute; lia | exact Hvalid |]
    end.
    do 2 eexists. split; [reflexivity |]. simpl.
    split; [reflexivity |]. split; [exact Hfwd |].
    match type of Hw with
    | writeTransition now leadId ?o ?n ?r ?m db = _ =>
        pose proof (writeTransition_run now leadId o n r m db) as R
    end.
    rewrite Hw in R. destruct R as (_ & _ & _ & _ & _ & _ & Hstage & _).
    destruct (findById_stored _ _ _ Hf) as (row & Hrow & _).
    by apply (Hstage row).
  - rewrite (evaluateProgression_no_rule_default now leadId db lead Hf Hs Hown).
    by do 2 eexists.
Qed.

(** * Progression conditions *)

Import ProgressionConditions.

Lemma record_met name key d ok ev :
  met (record name key d ok ev) = met ev && ok
  /\ failedConditions (record name key d ok ev)
     = (failedConditions ev ++ failed name ok)%list.
Proof.
  destruct ok; simpl; split;
    rewrite ?andb_true_r, ?andb_false_r, ?app_nil_r; reflexivity.
Qed.

Lemma includes_app l1 l2 t :
  Js.includes (l1 ++ l2)%list t = Js.includes l1 t || Js.includes l2 t.
Proof. apply existsb_app. Qed.

(** Keeping first occurrences only does not change what is included. *)
Lemma includes_setOf_acc xs acc t :
  Js.includes
    (fold_left (fun acc x => if Js.includes acc x then acc else (acc ++ [x])%list)
       xs acc) t
  = Js.includes acc t || Js.includes xs t.
Proof.
  revert acc. induction xs as [| x xs IH]; intros acc; simpl.
  - by rewrite orb_false_r.
  - rewrite IH. destruct (Js.includes acc x) eqn:E.
    + destruct (String.eqb_spec t x) as [-> |]; simpl; [| done].
      by rewrite E.
    + rewrite includes_app. simpl. rewrite orb_false_r. by rewrite orb_assoc.
Qed.

Lemma includes_setOf xs t : Js.includes (setOf xs) t = Js.includes xs t.
Proof. unfold setOf. by rewrite includes_setOf_acc. Qed.

Lemma includes_event_types events t :
  Js.includes (map event_type events) t
  = existsb (fun e => String.eqb t (event_type e)) events.
Proof. induction events as [| e l IH]; simpl; [done |]. by rewrite <- IH. Qed.

Lemma no_missing_forallb {A} (p : A -> bool) l :
  Nat.eqb (length (List.filter (fun x => negb (p x)) l)) 0 = forallb p l.
Proof.
  induction l as [| x l IH]; simpl; [done |].
  destruct (p x); simpl; [exact IH | done].
Qed.

Lemma required_types_present events required :
  forallb (Js.includes (setOf (map event_type events))) required
  = forallb (fun t => existsb (fun e => String.eqb t (event_type e)) events)
      required.
Proof.
  induction required as [| t l IH]; simpl; [done |].
  by rewrite IH, includes_setOf, includes_event_types.
Qed.

(** Every combination of configured conditions, with each [record]
    replaced by what it leaves in the evaluation. *)
Ltac evaluateConditions_cases c :=
  unfold evaluateConditions, scoreMet, eventsMet, timeWindowMet, conversionMet,
    eventTypesMet;
  destruct (min_engagement_score c), (min_events c), (time_window_hours c),
    (conversion_event c), (required_event_types c);
    cbv zeta;
    repeat match goal with
           | |- context [record ?n ?k ?d ?ok ?ev] =>
               let Hm := fresh in let Hf := fresh in
               destruct (record_met n k d ok ev) as [Hm Hf];
               rewrite ?Hm, ?Hf; clear Hm Hf
           end;
    rewrite ?no_missing_forallb;
    rewrite ?required_types_present;
    cbn [met failedConditions failed app andb];
    rewrite ?andb_true_r, ?app_nil_r, <- ?app_assoc.

Lemma evaluateConditions_met now lead events c :
  met (evaluateConditions now lead events c)
  = scoreMet lead c && eventsMet events c && timeWindowMet now events c
    && conversionMet events c && eventTypesMet events c.
Proof. evaluateConditions_cases c; reflexivity. Qed.

(** The conditions of a rule are evaluated independently and combined
    with "and": the evaluation is met exactly when every configured
    condition holds, and [failedConditions] lists the conditions that do
    not hold, in the order score, event count, time window, conversion,
    event types. *)
Theorem evaluateConditions_conjunction now lead events c :
  met (evaluateConditions now lead events c)
  = scoreMet lead c && eventsMet events c && timeWindowMet now events c
    && conversionMet events c && eventTypesMet events c
  /\ failedConditions (evaluateConditions now lead events c)
     = (failed "min_engagement_score" (scoreMet lead c)
        ++ failed "min_events" (eventsMet events c)
        ++ failed "time_window_hours" (timeWindowMet now events c)
        ++ failed "conversion_event" (conversionMet events c)
        ++ failed "required_event_types" (eventTypesMet events c))%list.
Proof. evaluateConditions_cases c; split; reflexivity. Qed.

Lemma filter_length_sublist {A} (f : A -> bool) (l1 l2 : list A) :
  l1 `sublist_of` l2 ->
  (length (List.filter f l1) <= length (List.filter f l2))%nat.
Proof.
  induction 1 as [| x l1 l2 _ IH | x l1 l2 _ IH]; simpl; [lia | |];
    destruct (f x); simpl; lia.
Qed.

Lemma existsb_sublist {A} (f : A -> bool) (l1 l2 : list A) :
  l1 `sublist_of` l2 -> existsb f l1 = true -> existsb f l2 = true.
Proof.
  induction 1 as [| x l1 l2 _ IH | x l1 l2 _ IH]; simpl; [done | |].
  - destruct (f x); [done | exact IH].
  - intros H. rewrite (IH H). apply orb_true_r.
Qed.

(** More engagement never revokes eligibility: when an evaluation is met,
    it is still met for a lead with a score at least as high and a list
    of events that contains the former one. *)
Theorem evaluateConditions_monotone now lead lead' events events' c :
  engagement_score lead <= engagement_score lead' ->
  events `sublist_of` events' ->
  met (evaluateConditions now lead events c) = true ->
  met (evaluateConditions now lead' events' c) = true.
Proof.
  intros Hscore Hsub.
  rewrite (evaluateConditions_met now lead events c).
  rewrite (evaluateConditions_met now lead' events' c).
  rewrite !andb_true_iff. intros ((((H1 & H2) & H3) & H4) & H5).
  pose proof (sublist_length _ _ Hsub) as Hlen.
  repeat split.
  - unfold scoreMet in *. destruct (min_engagement_score c); [lia | done].
  - unfold eventsMet in *. destruct (min_events c); [lia | done].
  - unfold timeWindowMet in *. destruct (time_window_hours c) as [h |]; [| done].
    pose proof (filter_length_sublist
                  (fun e => now - h * 60 * 60 * 1000 <=? timestamp e)
                  events events' Hsub).
    lia.
  - unfold conversionMet in *. destruct (conversion_event c); [| done].
    by eapply existsb_sublist.
  - unfold eventTypesMet in *.
    destruct (required_event_types c) as [required |]; [| done].
    rewrite forallb_forall in *. intros t Ht.
    eapply existsb_sublist; [exact Hsub |]. by apply H5.
Qed.

Lemma evaluateConditions_monotone_witness :
  met (evaluateConditions Sample.now Sample.leadEngaged
         (engagement_events Sample.dbEngaged)
         {| min_engagement_score := Some 150;
            min_events := Some 5;
            time_window_hours := Some 24;
            conversion_event := false;
            required_event_types := Some ["login"] |}) = true.
Proof.
  apply (evaluateConditions_monotone Sample.now
           {| id := "lead-3"; product_id := "prod-1"; stage := "Engaged_Lead";
              engagement_score := 150; updated_at := 0 |}
           Sample.leadEngaged
           (drop 1 (engagement_events Sample.dbEngaged))).
  - vm_compute. discriminate.
  - apply sublist_drop.
  - vm_compute. reflexivity.
Defined.

Lemma autoProgressLead_default_rules_witness :
  exists r db',
    autoProgressLead 0 "lead-1" None Sample.db = (Ok r, db')
    /\ match r with
       | NotProgressed _ _ => db' = Sample.db
       | Progressed t _ =>
           oldStage t = "User"
           /\ stageOrder (newStage t) = Some 2
           /\ stage <$> leads db' !! "lead-1" = Some (newStage t)
       end.
Proof.
  apply (autoProgressLead_default_rules 0 "lead-1" Sample.db Sample.leadUser).
  - vm_compute. reflexivity.
  - apply list_elem_of_here.
Defined.

(** * Scoring arithmetic *)

Lemma Math_round_inject_Z (z : Z) : Math_round (inject_Z z) = z.
Proof.
  unfold Math_round, Qfloor, Qplus, inject_Z. simpl.
  change (Z.pos (1 * 2)) with 2.
  symmetry. apply Z.div_unique with (r := 1); lia.
Qed.

Lemma Math_round_le (x y : Q) : (x <= y)%Q -> Math_round x <= Math_round y.
Proof.
  intros H. apply Qfloor_resp_le. by apply Qplus_le_compat; [| apply Qle_refl].
Qed.

Lemma Math_round_nonneg (x : Q) : (0 <= x)%Q -> 0 <= Math_round x.
Proof. intros H. apply (Math_round_le 0 x H). Qed.

Lemma Qpower_positive_le_1 (q : Q) (p : positive) :
  (0 <= q)%Q -> (q <= 1)%Q -> (Qpower_positive q p <= 1)%Q.
Proof.
  intros H0 H1.
  assert (forall x y, (0 <= x <= 1)%Q -> (0 <= y <= 1)%Q -> (0 <= x * y <= 1)%Q)
    as Hmul.
  { intros x y Hx Hy. split; [apply Qmult_le_0_compat; tauto |].
    apply (Qmult_le_compat_nonneg x 1 y 1 Hx Hy). }
  assert (0 <= Qpower_positive q p <= 1)%Q as [_ H]; [| exact H].
  unfold Qpower_positive.
  induction p as [p IH | p IH |]; simpl; auto.
Qed.

Lemma Qpower_le_1 (q : Q) (n : Z) :
  (0 <= q)%Q -> (q <= 1)%Q -> 0 <= n -> (0 <= q ^ n <= 1)%Q.
Proof.
  intros H0 H1 Hn. split; [by apply Qpower_0_le |].
  destruct n as [| p | p]; simpl; [apply Qle_refl | | lia].
  by apply Qpower_positive_le_1.
Qed.

(** Time decay never raises a score and never makes it negative: for a
    decay factor between 0 and 1, a decay-free window that is not
    negative and a score that is not negative, the decayed score lies
    between 0 and the score. *)
Theorem applyTimeDecay_bounds now eventScore eventTimestamp rules :
  0 <= eventScore ->
  (0 <= time_decay_factor rules)%Q -> (time_decay_factor rules <= 1)%Q ->
  (0 <= decay_start_hours rules)%Q ->
  0 <= applyTimeDecay now eventScore eventTimestamp rules <= eventScore.
Proof.
  intros Hs Hf0 Hf1 Hd. unfold applyTimeDecay.
  destruct (Qle_bool (hoursAgo now eventTimestamp) (decay_start_hours rules))
    eqn:E; [lia |].
  assert (0 <= hoursAgo now eventTimestamp)%Q as Hh.
  { apply Qlt_le_weak, Qnot_le_lt. intros Hle.
    assert (hoursAgo now eventTimestamp <= decay_start_hours rules)%Q as Hle'
      by (eapply Qle_trans; eassumption).
    apply Qle_bool_iff in Hle'. congruence. }
  assert (0 <= Math_floor (hoursAgo now eventTimestamp / 24)) as Hdays.
  { apply (Qfloor_resp_le 0). by apply Qmult_le_0_compat. }
  destruct (Qpower_le_1 _ _ Hf0 Hf1 Hdays) as [Hp0 Hp1].
  assert (0 <= inject_Z eventScore)%Q as Hs'
    by (change 0%Q with (inject_Z 0); rewrite <- Zle_Qle; lia).
  split.
  - apply Math_round_nonneg. by apply Qmult_le_0_compat.
  - rewrite <- (Math_round_inject_Z eventScore) at 2.
    apply Math_round_le.
    rewrite <- (Qmult_1_r (inject_Z eventScore)) at 2.
    rewrite (Qmult_comm _ 1), (Qmult_comm (inject_Z eventScore)).
    by apply Qmult_le_compat_r.
Qed.

Lemma applyTimeDecay_bounds_witness :
  0 <= applyTimeDecay Sample.now 10 (Sample.now - 240 * 3600000)
         defaultScoringRules <= 10.
Proof.
  apply (applyTimeDecay_bounds Sample.now 10 (Sample.now - 240 * 3600000)
           defaultScoringRules); vm_compute; discriminate.
Defined.

(** ** Consecutive days *)

Lemma lookBack_spec i D c eventHistory :
  let r := lookBack i (D - c * oneDay) c eventHistory in
  c <= r <= c + Z.of_nat i
  /\ forall j, c <= j < r ->
       existsb (fun e => startOfDay (timestamp e) =? D - j * oneDay)
         eventHistory = true.
Proof.
  revert c. induction i as [| i IH]; intros c; simpl.
  - split; [lia |]. intros j Hj. lia.
  - destruct (existsb _ eventHistory) eqn:E.
    + replace (D - c * oneDay - oneDay) with (D - (c + 1) * oneDay) by lia.
      destruct (IH (c + 1)) as [Hb Hev]. split; [lia |].
      intros j Hj. destruct (Z.eq_dec j c) as [-> | Hne]; [exact E |].
      apply Hev. lia.
    + split; [lia |]. intros j Hj. lia.
Qed.

Lemma calculateConsecutiveDays_pos currentEvent eventHistory :
  1 <= calculateConsecutiveDays currentEvent eventHistory.
Proof.
  unfold calculateConsecutiveDays.
  pose proof (lookBack_spec 30 (startOfDay (timestamp currentEvent)) 1
                eventHistory) as H.
  rewrite Z.mul_1_l in H. cbv zeta in H. lia.
Qed.

Lemma filter_length_lt {A} (P Q : A -> bool) (l : list A) x :
  (forall y, Q y = true -> P y = true) ->
  In x l -> P x = true -> Q x = false ->
  (length (List.filter Q l) < length (List.filter P l))%nat.
Proof.
  intros HQP. induction l as [| y l IH]; intros Hin HP HQ; [destruct Hin |].
  assert (length (List.filter Q l) <= length (List.filter P l))%nat as Hle.
  { clear -HQP. induction l as [| z l IH]; simpl; [lia |].
    destruct (Q z) eqn:Ez.
    - rewrite (HQP z Ez). simpl. lia.
    - destruct (P z); simpl; lia. }
  simpl. destruct Hin as [-> | Hin].
  - rewrite HP, HQ. simpl. lia.
  - specialize (IH Hin HP HQ). destruct (Q y) eqn:Ey.
    + rewrite (HQP y Ey). simpl. lia.
    + destruct (P y); simpl; lia.
Qed.

(** Every day the loop counts has an event of its own. *)
Lemma lookBack_events i checkDate c eventHistory :
  lookBack i checkDate c eventHistory
  <= c + Z.of_nat
           (length (List.filter
                      (fun e => startOfDay (timestamp e) <=? checkDate)
                      eventHistory)).
Proof.
  revert checkDate c. induction i as [| i IH]; intros checkDate c; simpl;
    [lia |].
  destruct (existsb _ eventHistory) eqn:E; [| lia].
  apply existsb_exists in E as (e & Hin & He). apply Z.eqb_eq in He.
  specialize (IH (checkDate - oneDay) (c + 1)).
  pose proof (filter_length_lt
                (fun e => startOfDay (timestamp e) <=? checkDate)
                (fun e => startOfDay (timestamp e) <=? checkDate - oneDay)
                eventHistory e) as Hlt.
  cbv beta in Hlt.
  assert (0 < oneDay) as Hday by reflexivity.
  apply Hlt in Hin; [lia | intros y Hy; lia | lia | lia].
Qed.

Lemma List_filter_length_le {A} (f : A -> bool) l :
  (length (List.filter f l) <= length l)%nat.
Proof. induction l as [| x l IH]; simpl; [lia |]. destruct (f x); simpl; lia. Qed.

(** [calculateConsecutiveDays] counts the event's own day and at most
    thirty days before it, each of them for an event of the history that
    no other day is counted for: the count lies between 1 and 31 and
    exceeds the number of events in the history by one at most.  A first
    event counts one day. *)
Theorem calculateConsecutiveDays_bounds currentEvent eventHistory :
  let days := calculateConsecutiveDays currentEvent eventHistory in
  1 <= days <= 31
  /\ days <= 1 + Z.of_nat (length eventHistory).
Proof.
  intros days. subst days. unfold calculateConsecutiveDays.
  pose proof (lookBack_spec 30 (startOfDay (timestamp currentEvent)) 1
                eventHistory) as H.
  rewrite Z.mul_1_l in H. cbv zeta in H. destruct H as [Hb _].
  split; [lia |].
  etransitivity; [apply lookBack_events |].
  pose proof (List_filter_length_le
                (fun e => startOfDay (timestamp e)
                          <=? startOfDay (timestamp currentEvent) - oneDay)
                eventHistory).
  lia.
Qed.

(** ** The loop over the events *)

(** Each event is scored against the events before it only: the scores of
    a list of events start with the scores of any of its prefixes. *)
Lemma scoreEvents_app now rules eventHistory l1 l2 :
  scoreEvents now rules eventHistory (l1 ++ l2)%list
  = (scoreEvents now rules eventHistory l1
     ++ scoreEvents now rules (eventHistory ++ l1)%list l2)%list.
Proof.
  revert eventHistory. induction l1 as [| e l1 IH]; intros h; simpl.
  - by rewrite app_nil_r.
  - by rewrite IH, <- app_assoc.
Qed.

(** Events that arrive later leave the scores of the earlier ones as
    they were: the breakdown of a list of events is a prefix of the
    breakdown of any list that extends it. *)
Theorem scoreOf_prefix_stable now rules events later :
  breakdown (scoreOf now rules events)
    `prefix_of` breakdown (scoreOf now rules (events ++ later)%list).
Proof.
  unfold scoreOf. cbn [breakdown].
  rewrite scoreEvents_app. by eexists.
Qed.

Lemma scoreEvents_ids now rules eventHistory events :
  map es_event_id (scoreEvents now rules eventHistory events)
  = map event_id events.
Proof.
  revert eventHistory. induction events as [| e l IH]; intros h; simpl;
    [done |]. by rewrite IH.
Qed.

Lemma scoreOf_total now rules events :
  let r := scoreOf now rules events in
  match recent_activity_bonus r with
  | Some bonus =>
      bonus = Z.min (5 * Z.of_nat (recent_events r)) 50 /\ 5 <= bonus <= 50
  | None => recent_events r = 0%nat
  end
  /\ total_score r
     = Z.max 0 (fold_left (fun acc s => acc + final_score s) (breakdown r) 0
                + default 0 (recent_activity_bonus r)).
Proof.
  intros r. subst r. unfold scoreOf.
  cbn [breakdown event_count recent_events recent_activity_bonus total_score].
  set (recent := List.filter _ events).
  destruct recent as [| e recent']; cbn [length Nat.ltb Nat.leb].
  - split; [reflexivity |]. by rewrite Math_round_inject_Z, Z.add_0_r.
  - split; [split; lia |]. by rewrite Math_round_inject_Z.
Qed.

(** The result of a score calculation is laid out like the events it was
    computed from: one breakdown entry per event, in order; the recent
    events are among the counted ones; the recent-activity bonus is 5 per
    recent event, at least 5 and at most 50, and absent when no event is
    recent; and the total is the sum of the final scores and the bonus,
    raised to 0 when negative. *)
Theorem scoreOf_layout now rules events :
  let r := scoreOf now rules events in
  map es_event_id (breakdown r) = map event_id events
  /\ event_count r = length events
  /\ (recent_events r <= event_count r)%nat
  /\ match recent_activity_bonus r with
     | Some bonus =>
         bonus = Z.min (5 * Z.of_nat (recent_events r)) 50 /\ 5 <= bonus <= 50
     | None => recent_events r = 0%nat
     end
  /\ total_score r
     = Z.max 0 (fold_left (fun acc s => acc + final_score s) (breakdown r) 0
                + default 0 (recent_activity_bonus r)).
Proof.
  intros r. subst r.
  split; [apply scoreEvents_ids |]. split; [reflexivity |].
  split; [apply List_filter_length_le |].
  apply scoreOf_total.
Qed.

(** ** Signs *)

Lemma calculateEventScore_nonneg event rules :
  Rules.nonNegative rules -> 0 <= score_impact event ->
  0 <= calculateEventScore event rules.
Proof.
  intros [] Hs. unfold calculateEventScore. apply Math_round_nonneg.
  assert (0 <= inject_Z (score_impact event))%Q
    by (change 0%Q with (inject_Z 0); rewrite <- Zle_Qle; lia).
  repeat match goal with
         | |- context [String.eqb ?a ?b] => destruct (String.eqb a b)
         end;
    try apply Qmult_le_0_compat; assumption.
Qed.

(** The part of the multiplier that is summed. *)
Lemma bonusMultiplier_shape event eventHistory rules :
  exists summed,
    (Rules.nonNegative rules -> (1 <= summed)%Q)
    /\ bonusMultiplier event eventHistory rules
       = (if Nat.ltb 1 (length (List.filter (sameType event) eventHistory))
          then summed
               * Math_pow (repeat_engagement_decay rules)
                   (Z.of_nat (length (List.filter (sameType event) eventHistory))
                    - 1)
          else summed)%Q.
Proof.
  eexists. split; [| reflexivity].
  intros [].
  pose proof (calculateConsecutiveDays_pos event eventHistory) as Hdays.
  assert (0 <= Qmin (inject_Z (calculateConsecutiveDays event eventHistory)
                     * consecutive_days_bonus rules) 1)%Q as Hc.
  { apply Q.min_glb; [| discriminate].
    apply Qmult_le_0_compat; [| assumption].
    change 0%Q with (inject_Z 0). rewrite <- Zle_Qle. lia. }
  assert (0 <= first_time_bonus rules - 1)%Q as Hf.
  { unfold Qminus. rewrite <- (Qplus_opp_r 1).
    apply Qplus_le_compat; [assumption | apply Qle_refl]. }
  assert (forall a b, (1 <= a)%Q -> (0 <= b)%Q -> (1 <= a + b)%Q) as Hadd.
  { intros a b Ha Hb. rewrite <- (Qplus_0_r 1). by apply Qplus_le_compat. }
  repeat match goal with
         | |- context [if ?b then _ else _] => destruct b
         end;
    repeat apply Hadd; try assumption; apply Qle_refl.
Qed.

Lemma bonusMultiplier_nonneg event eventHistory rules :
  Rules.nonNegative rules ->
  (0 <= bonusMultiplier event eventHistory rules)%Q.
Proof.
  intros Hn.
  destruct (bonusMultiplier_shape event eventHistory rules)
    as (summed & Hs & ->).
  assert (0 <= summed)%Q as H0.
  { eapply Qle_trans; [| apply (Hs Hn)]. discriminate. }
  destruct (Nat.ltb _ _); [| exact H0].
  apply Qmult_le_0_compat; [exact H0 |].
  apply Qpower_0_le. by destruct Hn.
Qed.

Lemma fold_sum_nonneg (scores : list EventScore) acc :
  0 <= acc -> (forall s, s ∈ scores -> 0 <= final_score s) ->
  0 <= fold_left (fun acc s => acc + final_score s) scores acc.
Proof.
  revert acc. induction scores as [| s l IH]; intros acc Ha Hs; [exact Ha |].
  simpl. apply IH.
  - pose proof (Hs s (list_elem_of_here _ _)). lia.
  - intros s' Hs'. apply Hs. by apply list_elem_of_further.
Qed.

Lemma scoreEvents_nonneg now rules eventHistory events :
  Rules.nonNegative rules ->
  (forall e, e ∈ events -> 0 <= score_impact e) ->
  forall s, s ∈ scoreEvents now rules eventHistory events ->
            0 <= base_score s /\ 0 <= final_score s.
Proof.
  intros Hn. revert eventHistory.
  induction events as [| e l IH]; intros h He s Hs; simpl in Hs.
  - by apply elem_of_nil in Hs.
  - apply elem_of_cons in Hs as [-> | Hs].
    + cbn [base_score final_score].
      pose proof (calculateEventScore_nonneg e rules Hn
                    (He e (list_elem_of_here _ _))) as Hb.
      split; [exact Hb |].
      unfold applyEngagementBonuses. apply Math_round_nonneg.
      apply Qmult_le_0_compat; [| by apply bonusMultiplier_nonneg].
      change 0%Q with (inject_Z 0). rewrite <- Zle_Qle.
      unfold applyTimeDecay.
      destruct (Qle_bool _ _); [exact Hb |].
      apply Math_round_nonneg. apply Qmult_le_0_compat.
      * change 0%Q with (inject_Z 0). by rewrite <- Zle_Qle.
      * apply Qpower_0_le. by destruct Hn.
    + eapply IH; [| exact Hs].
      intros e' He'. apply He. by apply list_elem_of_further.
Qed.

(** With non-negative coefficients and non-negative stored impacts, no
    event is scored below 0, so the floor at 0 never applies: the total is
    the sum of the final scores plus the recent-activity bonus. *)
Theorem scoreOf_nonnegative_rules now rules events :
  Rules.nonNegative rules ->
  (forall e, e ∈ events -> 0 <= score_impact e) ->
  let r := scoreOf now rules events in
  (forall s, s ∈ breakdown r -> 0 <= base_score s /\ 0 <= final_score s)
  /\ total_score r
     = fold_left (fun acc s => acc + final_score s) (breakdown r) 0
       + default 0 (recent_activity_bonus r)
  /\ default 0 (recent_activity_bonus r) <= total_score r.
Proof.
  intros Hn He r.
  pose proof (scoreEvents_nonneg now rules [] events Hn He) as Hs.
  destruct (scoreOf_total now rules events) as (Hb & Ht).
  fold r in Hb, Ht. change (breakdown r) with (scoreEvents now rules [] events).
  split; [exact Hs |].
  assert (0 <= fold_left (fun acc s => acc + final_score s)
                 (scoreEvents now rules [] events) 0) as Hsum.
  { apply fold_sum_nonneg; [lia |]. intros s Hin. by apply Hs. }
  change (breakdown r) with (scoreEvents now rules [] events) in Ht.
  destruct (recent_activity_bonus r) as [bonus |]; simpl in *; lia.
Qed.

Lemma nonNegative_defaultScoringRules : Rules.nonNegative defaultScoringRules.
Proof. constructor; vm_compute; discriminate. Qed.

Lemma scoreOf_nonnegative_rules_witness :
  let r := scoreOf Sample.now defaultScoringRules
             (engagement_events Sample.dbTwoLogins) in
  default 0 (recent_activity_bonus r) <= total_score r.
Proof.
  apply (scoreOf_nonnegative_rules Sample.now defaultScoringRules
           (engagement_events Sample.dbTwoLogins)).
  - constructor; vm_compute; discriminate.
  - intros e He.
    repeat (apply elem_of_cons in He as [-> | He]; [vm_compute; discriminate |]).
    by apply elem_of_nil in He.
Defined.

(** Marking an event as a high-value action never lowers its score: with
    non-negative coefficients and a non-negative decayed score, the same
    event scores at least as much with [high_value_action] as without. *)
Theorem highValue_never_lowers eventScore event event' eventHistory rules :
  Rules.nonNegative rules -> 0 <= eventScore ->
  event_type event' = event_type event ->
  timestamp event' = timestamp event ->
  highValue event = false -> highValue event' = true ->
  applyEngagementBonuses eventScore event eventHistory rules
  <= applyEngagementBonuses eventScore event' eventHistory rules.
Proof.
  intros Hn Hs Ht Hts Hv Hv'.
  unfold applyEngagementBonuses. apply Math_round_le.
  assert (0 <= inject_Z eventScore)%Q as Hs'
    by (change 0%Q with (inject_Z 0); rewrite <- Zle_Qle; lia).
  rewrite !(Qmult_comm (inject_Z eventScore)).
  apply Qmult_le_compat_r; [| exact Hs'].
  unfold bonusMultiplier, calculateConsecutiveDays, sameType.
  rewrite Hv, Hv', Ht, Hts. destruct Hn.
  assert (1 <= 1 + high_value_action_bonus rules)%Q as H1.
  { rewrite <- (Qplus_0_r 1) at 1. by apply Qplus_le_compat; [apply Qle_refl |]. }
  repeat match goal with
         | |- context [if ?b then _ else _] => destruct b
         end;
    repeat first
      [ assumption
      | apply Qmult_le_compat_r; [| by apply Qpower_0_le]
      | apply Qplus_le_compat; [| apply Qle_refl] ].
Qed.

Lemma highValue_never_lowers_witness :
  applyEngagementBonuses 10 (Sample.login "event-1" 1 false) []
    defaultScoringRules
  <= applyEngagementBonuses 10 (Sample.login "event-1" 1 true) []
       defaultScoringRules.
Proof.
  apply (highValue_never_lowers 10 (Sample.login "event-1" 1 false)
           (Sample.login "event-1" 1 true) [] defaultScoringRules);
    try reflexivity.
  - constructor; vm_compute; discriminate.
  - vm_compute. discriminate.
Defined.

Import EngagementEventModel.

(** The points of an event of one of the five recognised types come from
    the rules alone, whatever impact is stored with the event; the stored
    impact is used only for an unrecognised type, and is then the score
    itself on every channel but [email]. *)
Theorem calculateEventScore_stored_impact event rules :
  (validateEventType (event_type event) = true ->
   forall impact,
     calculateEventScore
       {| event_id := event_id event;
          lead_id := lead_id event;
          event_type := event_type event;
          channel := channel event;
          timestamp := timestamp event;
          metadata := metadata event;
          score_impact := impact |} rules
     = calculateEventScore event rules)
  /\ (validateEventType (event_type event) = false ->
      channel event <> "email" ->
      calculateEventScore event rules = score_impact event).
Proof.
  unfold validateEventType, Js.includes, calculateEventScore. simpl.
  split; [intros H impact | intros H Hch];
    repeat match goal with
           | H : context [String.eqb (event_type event) ?b] |- _ =>
               destruct (String.eqb (event_type event) b); simpl in H
           end;
    try discriminate; [reflexivity .. |].
  destruct (String.eqb_spec (channel event) "email"); [done |].
  apply Math_round_inject_Z.
Qed.

Lemma calculateEventScore_stored_impact_witness :
  calculateEventScore
    {| event_id := "event-1"; lead_id := "lead-1"; event_type := "login";
       channel := "product"; timestamp := 0; metadata := None;
       score_impact := 500 |} defaultScoringRules
  = calculateEventScore
      {| event_id := "event-1"; lead_id := "lead-1"; event_type := "login";
         channel := "product"; timestamp := 0; metadata := None;
         score_impact := 0 |} defaultScoringRules.
Proof.
  destruct (calculateEventScore_stored_impact
              {| event_id := "event-1"; lead_id := "lead-1";
                 event_type := "login"; channel := "product"; timestamp := 0;
                 metadata := None; score_impact := 0 |} defaultScoringRules)
    as [H _].
  apply (H eq_refl 500).
Defined.

(** * Forced transitions *)

Lemma getOwn_setProp_eq {V} key (v : V) obj :
  Js.getOwn (setProp key v obj) key = Some v.
Proof.
  induction obj as [| [k w] obj IH]; simpl.
  - by rewrite String.eqb_refl.
  - destruct (String.eqb_spec key k) as [-> | Hne]; simpl.
    + by rewrite String.eqb_refl.
    + destruct (String.eqb_spec key k); [done | exact IH].
Qed.

Lemma getOwn_setProp_ne {V} key key' (v : V) obj :
  key' <> key -> Js.getOwn (setProp key v obj) key' = Js.getOwn obj key'.
Proof.
  intros Hne. induction obj as [| [k w] obj IH]; simpl.
  - by destruct (String.eqb_spec key' key).
  - destruct (String.eqb_spec key k) as [-> | Hk]; simpl.
    + by destruct (String.eqb_spec key' k).
    + destruct (String.eqb_spec key' k); [done | exact IH].
Qed.

Lemma leads_stage_check_elem stage :
  leads_stage_check stage = true
  <-> stage ∈ ["User"; "Engaged_Lead"; "Qualified_Lead"; "Customer"].
Proof.
  unfold leads_stage_check. rewrite existsb_exists. split.
  - intros (x & Hin & Hx). apply String.eqb_eq in Hx. subst x.
    by apply list_elem_of_In.
  - intros Hin. exists stage. split; [by apply list_elem_of_In |].
    apply String.eqb_refl.
Qed.

(** What [forceTransition] does, by the ways it can go. *)
Lemma forceTransition_run now leadId newStage reason md db :
  match leads db !! leadId with
  | Some row =>
      match writeTransition now leadId (stage (newLead row)) newStage reason
              (setProp "forced_transition" (MetaBool true) md) db with
      | (Ok _, db') =>
          forceTransition now leadId newStage reason md db
          = (Ok {| success := true;
                   leadId := leadId;
                   oldStage := stage (newLead row);
                   newStage := newStage;
                   reason := reason;
                   forced := true;
                   tr_timestamp := now |}, db')
      | (Throw e, _) =>
          forceTransition now leadId newStage reason md db = (Throw e, db)
      end
  | None =>
      forceTransition now leadId newStage reason md db
      = (Throw (Error "Lead not found"), db)
  end.
Proof.
  unfold forceTransition, bind, findById. cbn [fst].
  destruct (leads db !! leadId) as [row |];
    cbn [fmap option_fmap option_map]; [| reflexivity].
  match goal with
  | |- context [writeTransition ?a ?b ?c ?d ?e ?f ?g] =>
      pose proof (writeTransition_run a b c d e f g) as W;
      destruct (writeTransition a b c d e f g) as [[[] | e1] db1]
  end; [reflexivity | by subst db1].
Qed.

(** [forceTransition] skips the adjacency table, not the schema.  For a
    stored lead in one of the four stages and a reason that fits its
    column, it succeeds for every target stage of the four, allowed or
    not: the lead is stored in the requested stage and the audit row it
    appends carries [forced_transition: true], even when the caller's
    metadata says otherwise, next to the caller's other metadata.  For
    any other target the store refuses the row, the call throws and
    nothing is written. *)
Theorem forceTransition_overrides now leadId newStage reason md db lead :
  fst (findById leadId db) = Ok (Some lead) ->
  stage lead ∈ ["User"; "Engaged_Lead"; "Qualified_Lead"; "Customer"] ->
  (String.length reason <= 255)%nat ->
  (newStage ∈ ["User"; "Engaged_Lead"; "Qualified_Lead"; "Customer"] ->
   exists t db' rec,
     forceTransition now leadId newStage reason md db = (Ok t, db')
     /\ forced t = true /\ oldStage t = stage lead
     /\ stage <$> leads db' !! leadId = Some newStage
     /\ stage_transitions db' = (stage_transitions db ++ [rec])%list
     /\ from_stage rec = stage lead /\ to_stage rec = newStage
     /\ trigger_reason rec = reason
     /\ Js.getOwn (tr_metadata rec) "forced_transition" = Some (MetaBool true)
     /\ forall key, key <> "forced_transition" ->
          Js.getOwn (tr_metadata rec) key = Js.getOwn md key)
  /\ (newStage ∉ ["User"; "Engaged_Lead"; "Qualified_Lead"; "Customer"] ->
      exists e, forceTransition now leadId newStage reason md db = (Throw e, db)).
Proof.
  intros Hf Hstage Hreason.
  destruct (findById_stored _ _ _ Hf) as (row & Hrow & ->).
  pose proof (forceTransition_run now leadId newStage reason md db) as R.
  rewrite Hrow in R.
  pose proof (writeTransition_run now leadId (stage (newLead row)) newStage reason
                (setProp "forced_transition" (MetaBool true) md) db) as W.
  split.
  - intros Hnew.
    destruct (writeTransition_ok now leadId (stage (newLead row)) newStage reason
                (setProp "forced_transition" (MetaBool true) md) db)
      as (db' & Hw).
    { eauto. }
    { by apply leads_stage_check_elem. }
    { by apply leads_stage_check_varchar, leads_stage_check_elem. }
    { by apply Nat.leb_le. }
    rewrite Hw in R, W.
    destruct W as (_ & _ & _ & _ & Hst & _ & Hlead & _).
    do 3 eexists. split; [exact R |]. cbn [forced oldStage].
    split; [reflexivity |]. split; [reflexivity |].
    split; [by apply (Hlead row) |]. split; [exact Hst |].
    cbn [from_stage to_stage trigger_reason tr_metadata].
    repeat split.
    + apply getOwn_setProp_eq.
    + intros key Hkey. by apply getOwn_setProp_ne.
  - intros Hnew.
    destruct (writeTransition now leadId (stage (newLead row)) newStage reason
                (setProp "forced_transition" (MetaBool true) md) db)
      as [[[] | e] db1]; [| eauto].
    destruct W as (_ & Hcheck & _). by apply leads_stage_check_elem in Hcheck.
Qed.

Lemma forceTransition_overrides_witness :
  (exists t db',
     forceTransition 0 "lead-2" "User" "reopened"
       [("forced_transition", MetaBool false)] Sample.db = (Ok t, db')
     /\ stage <$> leads db' !! "lead-2" = Some "User")
  /\ exists e,
       forceTransition 0 "lead-2" "Archived" "reopened"
         [("forced_transition", MetaBool false)] Sample.db
       = (Throw e, Sample.db).
Proof.
  split.
  - destruct (forceTransition_overrides 0 "lead-2" "User" "reopened"
                [("forced_transition", MetaBool false)] Sample.db
                Sample.leadCustomer) as [H _].
    + vm_compute. reflexivity.
    + do 3 apply list_elem_of_further. apply list_elem_of_here.
    + vm_compute. lia.
    + destruct H as (t & db' & rec & H1 & _ & _ & H2 & _);
        [apply list_elem_of_here |].
      exists t, db'. by split.
  - destruct (forceTransition_overrides 0 "lead-2" "Archived" "reopened"
                [("forced_transition", MetaBool false)] Sample.db
                Sample.leadCustomer) as [_ H].
    + vm_compute. reflexivity.
    + do 3 apply list_elem_of_further. apply list_elem_of_here.
    + vm_compute. lia.
    + apply H. intros Hin.
      repeat (apply elem_of_cons in Hin as [Hin | Hin]; [discriminate Hin |]).
      by apply elem_of_nil in Hin.
Defined.

(** Where [executeTransition] succeeds, [forceTransition] does the same
    to the store: the same leads, the same events, and an audit row that
    differs in its metadata only. *)
Theorem forceTransition_agrees_when_valid now leadId newStage reason md db t db1 :
  executeTransition now leadId newStage reason md db = (Ok t, db1) ->
  exists t' db2 rec1 rec2,
    forceTransition now leadId newStage reason md db = (Ok t', db2)
    /\ leads db2 = leads db1
    /\ engagement_events db2 = engagement_events db1
    /\ oldStage t' = oldStage t
    /\ StageTransitionEngine.newStage t' = StageTransitionEngine.newStage t
    /\ stage_transitions db1 = (stage_transitions db ++ [rec1])%list
    /\ stage_transitions db2 = (stage_transitions db ++ [rec2])%list
    /\ (tr_lead_id rec2, from_stage rec2, to_stage rec2, trigger_reason rec2,
        transition_at rec2)
       = (tr_lead_id rec1, from_stage rec1, to_stage rec1, trigger_reason rec1,
          transition_at rec1).
Proof.
  intros (row & Hrow & V & W1 & ->)%executeTransition_success.
  pose proof (writeTransition_run now leadId (stage (newLead row)) newStage
                reason md db) as R1.
  rewrite W1 in R1.
  destruct R1 as (Hsome & Hcheck & Hold & Hreason & Hst1 & Hev1 & _ & _).
  destruct (writeTransition_ok now leadId (stage (newLead row)) newStage reason
              (setProp "forced_transition" (MetaBool true) md) db)
    as (db2 & W2); [done .. |].
  pose proof (forceTransition_run now leadId newStage reason md db) as F.
  rewrite Hrow, W2 in F.
  pose proof (writeTransition_run now leadId (stage (newLead row)) newStage
                reason (setProp "forced_transition" (MetaBool true) md) db) as R2.
  rewrite W2 in R2. destruct R2 as (_ & _ & _ & _ & Hst2 & Hev2 & _ & _).
  do 4 eexists. split; [exact F |].
  split; [| split; [congruence |]].
  - by rewrite (writeTransition_leads _ _ _ _ _ _ _ _ W1),
      (writeTransition_leads _ _ _ _ _ _ _ _ W2).
  - cbn [oldStage StageTransitionEngine.newStage].
    split; [reflexivity |]. split; [reflexivity |].
    split; [exact Hst1 |]. split; [exact Hst2 |]. reflexivity.
Qed.

Lemma forceTransition_agrees_when_valid_witness :
  exists t' db2,
    forceTransition 0 "lead-1" "Engaged_Lead" "promote" [] Sample.db
    = (Ok t', db2)
    /\ leads db2
       = leads (snd (executeTransition 0 "lead-1" "Engaged_Lead" "promote" []
                       Sample.db)).
Proof.
  destruct (executeTransition 0 "lead-1" "Engaged_Lead" "promote" [] Sample.db)
    as [r db1] eqn:E.
  assert (exists t, r = Ok t) as [t ->]
    by (vm_compute in E; injection E as <- _; by eexists).
  destruct (forceTransition_agrees_when_valid 0 "lead-1" "Engaged_Lead" "promote"
              [] Sample.db t db1 E) as (t' & db2 & _ & _ & H1 & H2 & _).
  exists t', db2. by split.
Defined.

(** * The audit trail as an invariant *)

Import LeadModel AuditTrail.

Lemma chained_snoc rows rec :
  chained rows ->
  (forall r, last rows = Some r -> to_stage r = from_stage rec) ->
  chained (rows ++ [rec]).
Proof.
  induction rows as [| r1 rest IH]; intros Hc Hl; [exact I |].
  destruct rest as [| r2 rest']; simpl.
  - split; [| exact I]. by apply Hl.
  - destruct Hc as [H12 Hc]. split; [exact H12 |].
    apply IH; [exact Hc |]. intros r Hr. apply Hl. exact Hr.
Qed.

Lemma validateStage_nonempty s : validateStage s = true -> s <> "".
Proof. intros H ->. discriminate H. Qed.

Lemma isValidTransition_validateStage fromStage toStage :
  isValidTransition fromStage toStage = Ok true -> validateStage toStage = true.
Proof.
  intros H%isValidTransition_true_edges.
  repeat (apply elem_of_cons in H as [[= _ ->] | H]; [reflexivity |]).
  by apply elem_of_nil in H.
Qed.

(** A transition written for a stored lead whose row is in [oldStage],
    to a valid stage, keeps the store consistent. *)
Lemma writeTransition_consistent now leadId row newStage reason md db :
  consistent db ->
  leads db !! leadId = Some row ->
  validateStage newStage = true ->
  consistent (snd (writeTransition now leadId (stage (newLead row)) newStage
                     reason md db)).
Proof.
  intros Hc Hrow Hnew.
  destruct (Hc leadId row Hrow) as (Hvalid & Hchain & Hlast).
  assert (stage (newLead row) = stage row) as Hold.
  { simpl. destruct (String.eqb_spec (stage row) ""); [| done].
    by apply validateStage_nonempty in Hvalid. }
  rewrite Hold.
  pose proof (writeTransition_run now leadId (stage row) newStage reason md db)
    as R.
  destruct (writeTransition now leadId (stage row) newStage reason md db)
    as [[[] | e] db'] eqn:W; cbn [snd]; [| by subst].
  destruct R as (_ & _ & _ & _ & Hst & _).
  pose proof (writeTransition_leads _ _ _ _ _ _ _ _ W) as Hleads.
  intros leadId' row'. unfold trail. rewrite Hst, Hleads.
  rewrite List.filter_app. simpl.
  destruct (String.eqb_spec leadId leadId') as [<- | Hne].
  - rewrite lookup_alter_eq, Hrow. simpl. intros [= <-]. simpl.
    split; [exact Hnew |]. split.
    + apply chained_snoc; [exact Hchain |]. exact Hlast.
    + intros r. rewrite last_snoc. by intros [= <-].
  - rewrite lookup_alter_ne by done. rewrite app_nil_r. apply Hc.
Qed.

Lemma executeTransition_consistent now leadId newStage reason md db :
  consistent db ->
  consistent (snd (executeTransition now leadId newStage reason md db)).
Proof.
  intros Hc.
  destruct (executeTransition now leadId newStage reason md db)
    as [[t | e] db'] eqn:E; cbn [snd].
  - apply executeTransition_success in E as (row & Hrow & V & W & _).
    apply isValidTransition_validateStage in V.
    pose proof (writeTransition_consistent now leadId row newStage reason md db
                  Hc Hrow V) as H.
    by rewrite W in H.
  - by rewrite (executeTransition_throw_unchanged _ _ _ _ _ _ _ _ E).
Qed.

Lemma autoProgressLead_consistent now leadId cfg db :
  consistent db -> consistent (snd (autoProgressLead now leadId cfg db)).
Proof.
  intros Hc. unfold autoProgressLead, bind.
  pose proof (evaluateProgression_reads now leadId cfg db) as Hr.
  destruct (evaluateProgression now leadId cfg db) as [[p | e] db0];
    simpl in Hr; subst db0; [| exact Hc].
  destruct p as [r | [|] next cur ev lid]; simpl; try exact Hc.
  match goal with
  | |- context [executeTransition now leadId next ?r ?m db] =>
      pose proof (executeTransition_consistent now leadId next r m db Hc) as H;
      destruct (executeTransition now leadId next r m db) as [[t | e] db1]
  end; exact H.
Qed.

(** The engine keeps the audit trail consistent: if every stored lead is
    in one of the four stages, its audit rows are chained and the last
    one ends in the lead's stage, the same holds after
    [executeTransition], [autoProgressLead] and [batchAutoProgress]. *)
Theorem engine_keeps_audit_trail_consistent
    now leadId leadIds newStage reason md cfg db :
  consistent db ->
  consistent (snd (executeTransition now leadId newStage reason md db))
  /\ consistent (snd (autoProgressLead now leadId cfg db))
  /\ consistent (snd (batchAutoProgress now leadIds cfg db)).
Proof.
  intros Hc.
  split; [by apply executeTransition_consistent |].
  split; [by apply autoProgressLead_consistent |].
  revert db Hc. induction leadIds as [| l rest IH]; intros db Hc; [exact Hc |].
  rewrite batchAutoProgress_cons. cbn -[batchAutoProgress].
  apply IH. by apply autoProgressLead_consistent.
Qed.

Lemma consistent_Sample_db : consistent Sample.db.
Proof.
  intros leadId row H. unfold Sample.db in H. simpl in H.
  apply lookup_insert_Some in H as [[<- <-] | [_ H]]; [by repeat split |].
  apply lookup_insert_Some in H as [[<- <-] | [_ H]]; [by repeat split |].
  by rewrite lookup_empty in H.
Qed.

Lemma engine_keeps_audit_trail_consistent_witness :
  consistent (snd (executeTransition 0 "lead-1" "Engaged_Lead" "promote" []
                     Sample.db))
  /\ consistent (snd (autoProgressLead 0 "lead-1" None Sample.db))
  /\ consistent (snd (batchAutoProgress 0 ["lead-1"; "lead-2"] None Sample.db)).
Proof.
  apply (engine_keeps_audit_trail_consistent 0 "lead-1" ["lead-1"; "lead-2"]
           "Engaged_Lead" "promote" [] None Sample.db).
  exact consistent_Sample_db.
Defined.

(** * The lead model *)

(** The stages [Lead.validateStage] accepts are the keys of the
    adjacency table, and every allowed transition ends in one of them. *)
Lemma validateStage_table_keys s :
  validateStage s = true <-> is_Some (Js.getOwn validTransitions s).
Proof.
  unfold validateStage, Js.includes, validTransitions. simpl.
  case_eqb; split; intros H; try done; try (by eexists);
    by destruct H.
Qed.

(** [progressStage] checks the stage name and not the adjacency table.
    For a stored lead whose object is in one of the four stages, and a
    reason that fits its column, it succeeds exactly when the new stage
    is one of the four stages, whether or not the transition is an
    allowed one; it then stores the new stage and appends one audit row,
    from the stage the lead object holds to the new stage, with empty
    metadata.  With any other stage name it throws [Invalid stage] and
    writes nothing. *)
Theorem progressStage_validates_stage_only now self newStage reason db row :
  leads db !! id self = Some row ->
  validateStage (stage self) = true ->
  (String.length reason <= 255)%nat ->
  ((exists self' db', progressStage now self newStage reason db = (Ok self', db'))
   <-> validateStage newStage = true)
  /\ (validateStage newStage = false ->
      progressStage now self newStage reason db
      = (Throw (Error "Invalid stage"), db))
  /\ (validateStage newStage = true ->
      exists self' db',
        progressStage now self newStage reason db = (Ok self', db')
        /\ stage self' = newStage
        /\ stage <$> leads db' !! id self = Some newStage
        /\ stage_transitions db'
           = (stage_transitions db ++
                [ {| tr_lead_id := id self;
                     from_stage := stage self;
                     to_stage := newStage;
                     trigger_reason := reason;
                     tr_metadata := [];
                     transition_at := now |} ])%list).
Proof.
  intros Hrow Hself Hreason. unfold progressStage.
  destruct (validateStage newStage) eqn:V; simpl.
  - destruct (writeTransition_ok now (id self) (stage self) newStage reason [] db)
      as (db' & W); [eauto | exact V | | by apply Nat.leb_le |].
    { by apply leads_stage_check_varchar. }
    pose proof (writeTransition_run now (id self) (stage self) newStage reason []
                  db) as R.
    rewrite W in R. destruct R as (_ & _ & _ & _ & Hst & _ & Hlead & _).
    unfold bind. rewrite W.
    split; [split; [done | intros _; by do 2 eexists] |].
    split; [discriminate |]. intros _.
    do 2 eexists. split; [reflexivity |].
    split; [reflexivity |]. split; [by apply (Hlead row) | exact Hst].
  - split; [split; [intros (s' & db' & H); discriminate H | discriminate] |].
    split; [reflexivity | discriminate].
Qed.

Lemma progressStage_validates_stage_only_witness :
  exists self' db',
    progressStage 0 Sample.leadCustomer "User" "reopened" Sample.db
    = (Ok self', db')
    /\ isValidTransition "Customer" "User" = Ok false.
Proof.
  destruct (progressStage_validates_stage_only 0 Sample.leadCustomer "User"
              "reopened" Sample.db Sample.leadCustomer) as (_ & _ & H).
  - vm_compute. reflexivity.
  - reflexivity.
  - vm_compute. lia.
  - destruct (H eq_refl) as (self' & db' & Hp & _).
    exists self', db'. by split.
Defined.

(** On events whose channel is [email] exactly when their type is
    [email_open] or [email_click], [Lead.calculateEngagementScore] is the
    sum of the base scores the scoring engine gives the events, without
    decay and bonuses, raised to 0 when negative. *)
Theorem calculateEngagementScore_sums_base_scores events rules :
  (forall e, e ∈ events ->
     String.eqb (channel e) "email"
     = String.eqb (event_type e) "email_open"
       || String.eqb (event_type e) "email_click") ->
  calculateEngagementScore events (pointRulesOf rules)
  = Z.max 0 (fold_left (fun acc e => acc + calculateEventScore e rules) events 0).
Proof.
  intros Hch. unfold calculateEngagementScore, pointRulesOf. simpl.
  match goal with
  | |- Z.max 0 (fold_left ?f events 0) = Z.max 0 (fold_left ?g events 0) =>
      assert (forall acc, fold_left f events acc = fold_left g events acc) as H;
      [| by rewrite H]
  end.
  induction events as [| e l IH]; intros acc; [reflexivity |].
  cbn [fold_left].
  rewrite IH by (intros e' He'; apply Hch; by apply list_elem_of_further).
  f_equal. f_equal. unfold calculateEventScore. cbv beta zeta.
  rewrite (Hch e (list_elem_of_here _ _)).
  repeat match goal with
         | |- context [String.eqb (event_type e) ?b] =>
             destruct (String.eqb_spec (event_type e) b) as [Heq | _];
             [first [reflexivity | rewrite Heq; reflexivity] |]
         end.
  reflexivity.
Qed.

Lemma calculateEngagementScore_sums_base_scores_witness :
  calculateEngagementScore (engagement_events Sample.dbTwoLeads)
    (pointRulesOf defaultScoringRules)
  = 35.
Proof.
  rewrite (calculateEngagementScore_sums_base_scores
             (engagement_events Sample.dbTwoLeads) defaultScoringRules).
  - vm_compute. reflexivity.
  - intros e He.
    repeat (apply elem_of_cons in He as [-> | He]; [reflexivity |]).
    by apply elem_of_nil in He.
Defined.

(** * The scoring engine over the store *)

Import ScoringService.

(** ** The rules cache *)

(** [getScoringRules] touches nothing but the cache entry of the product,
    and answers from the cache whenever the cache has an entry. *)
Lemma getScoringRules_frame productId st :
  exists rules st1,
    getScoringRules productId st = (Ok rules, st1)
    /\ productConfigs st1 !! productId = Some rules
    /\ (forall other, other <> productId ->
          productConfigs st1 !! other = productConfigs st !! other)
    /\ db st1 = db st /\ lead_scores st1 = lead_scores st
    /\ product_configs st1 = product_configs st
    /\ forall st2,
         productConfigs st2 !! productId = Some rules ->
         getScoringRules productId st2 = (Ok rules, st2).
Proof.
  unfold getScoringRules.
  destruct (productConfigs st !! productId) as [rules |] eqn:Hc.
  - exists rules, st. repeat split; try done.
    intros st2 H2. by rewrite H2.
  - do 2 eexists. split; [reflexivity |]. simpl.
    split; [apply lookup_insert_eq |].
    split; [intros other Hne; by apply lookup_insert_ne |].
    repeat split. intros st2 H2. by rewrite H2.
Qed.

(** The cache of [getScoringRules].  When a call leaves an entry for the
    product in the cache (it does unless the rules could not be read, in
    which case the defaults are answered and nothing is cached), the
    entry is the answer of the call, and every later call answers with
    it, without touching the state, whatever the product's configuration
    has become in the meantime. *)
Theorem getScoringRules_cached productId st rules st1 configs :
  getScoringRules productId st = (Ok rules, st1) ->
  is_Some (productConfigs st1 !! productId) ->
  productConfigs st1 !! productId = Some rules
  /\ let st2 := {| db := db st1;
                   lead_scores := lead_scores st1;
                   product_configs := configs;
                   productConfigs := productConfigs st1 |} in
     getScoringRules productId st2 = (Ok rules, st2).
Proof.
  intros Hg [cached Hcached].
  destruct (getScoringRules_frame productId st)
    as (rules' & st1' & Hg' & Hc & _ & _ & _ & _ & Hagain).
  rewrite Hg in Hg'. injection Hg' as <- <-.
  rewrite Hc in Hcached. injection Hcached as <-.
  split; [exact Hc |]. intros st2. by apply Hagain.
Qed.

Lemma getScoringRules_cached_witness :
  let st1 := snd (getScoringRules "prod-1" SampleState.state) in
  let st2 := {| db := db st1;
                lead_scores := lead_scores st1;
                product_configs := ∅;
                productConfigs := productConfigs st1 |} in
  exists rules,
    fst (getScoringRules "prod-1" SampleState.state) = Ok rules
    /\ customer_threshold rules = 500%Q
    /\ getScoringRules "prod-1" st2 = (Ok rules, st2).
Proof.
  intros st1 st2.
  destruct (getScoringRules "prod-1" SampleState.state) as [[rules | e] st']
    eqn:E; [| vm_compute in E; discriminate].
  exists rules. split; [reflexivity |].
  split; [vm_compute in E; by injection E as <- _ |].
  apply (getScoringRules_cached "prod-1" SampleState.state rules st' ∅ E).
  vm_compute in E. injection E as _ <-. vm_compute. by eexists.
Defined.

(** A product without a configuration row, or whose [scoring_rules] is
    not an object, gets the default rules; a configured product gets the
    defaults with the keys it defines replaced.  This is what a call
    answers when the product is not cached, in particular right after
    [clearCache] for the product; the cached rules of other products
    survive that, while [clearCache] without a product, or for the empty
    name, empties the cache. *)
Theorem clearCache_rereads productId st :
  productId <> "" ->
  fst (getScoringRules productId (clearCache (Some productId) st))
  = Ok match product_configs st !! productId with
       | Some (Some scoring_rules) => merge defaultScoringRules scoring_rules
       | _ => defaultScoringRules
       end
  /\ (forall other, other <> productId ->
        productConfigs (clearCache (Some productId) st) !! other
        = productConfigs st !! other)
  /\ productConfigs (clearCache None st) = ∅
  /\ productConfigs (clearCache (Some "") st) = ∅.
Proof.
  intros Hne. unfold getScoringRules, clearCache. simpl.
  destruct (String.eqb_spec productId ""); [done |].
  rewrite lookup_delete_eq. simpl.
  split; [reflexivity |]. split; [| done].
  intros other Ho. by apply lookup_delete_ne.
Qed.

Lemma clearCache_rereads_witness :
  customer_threshold
    <$> match fst (getScoringRules "prod-1"
                     (clearCache (Some "prod-1") SampleState.state)) with
        | Ok rules => Some rules
        | Throw _ => None
        end
  = Some 500%Q.
Proof.
  destruct (clearCache_rereads "prod-1" SampleState.state) as [-> _];
    [discriminate |].
  reflexivity.
Defined.

(** ** Updating the stored score *)

(** The score a lead gets under the rules in force for its product. *)
Lemma calculateLeadScore_service now leadId productId st :
  exists rules st1,
    getScoringRules productId st = (Ok rules, st1)
    /\ ScoringService.calculateLeadScore now leadId productId st
       = (fst (EngagementScoringEngine.calculateLeadScore now leadId rules (db st)),
          st1).
Proof.
  unfold ScoringService.calculateLeadScore, bindS, liftDb.
  destruct (getScoringRules_frame productId st)
    as (rules & st1 & Hg & _ & _ & Hdb & _).
  exists rules, st1. split; [exact Hg |]. rewrite Hg.
  unfold EngagementScoringEngine.calculateLeadScore, bind, eventsInWindow, ret.
  destruct st1. simpl in *. by subst.
Qed.

(** The two statements of a score update: both are applied, or
    neither is. *)
Lemma writeScore_run now leadId newScore reason st row :
  leads (db st) !! leadId = Some row ->
  0 <= newScore ->
  transactionS
    (let! _ := updateEngagementScoreRow now newScore leadId in
     insertLeadScore now leadId newScore reason) st
  = if integer newScore && varchar 255 reason
    then
      (Ok tt,
       {| db :=
            {| leads :=
                 alter (fun l => {| id := id l;
                                    product_id := product_id l;
                                    stage := stage l;
                                    engagement_score := newScore;
                                    updated_at := now |}) leadId
                   (leads (db st));
               engagement_events := engagement_events (db st);
               stage_transitions := stage_transitions (db st) |};
          lead_scores :=
            (lead_scores st ++
               [ {| ls_lead_id := leadId;
                    ls_score := newScore;
                    calculation_reason := reason;
                    ls_calculated_at := now |} ])%list;
          product_configs := product_configs st;
          productConfigs := productConfigs st |})
    else
      (Throw (if integer newScore then tooLong 255 else outOfRange newScore),
       st).
Proof.
  intros Hrow Hnn. destruct st as [d ls pc cache]. simpl in Hrow.
  unfold transactionS, bindS, updateEngagementScoreRow, insertLeadScore, liftDb.
  simpl.
  destruct (integer newScore) eqn:Hint; simpl; [| reflexivity].
  rewrite Hrow. simpl.
  assert ((newScore <? 0) = false) as -> by lia. simpl.
  destruct (varchar 255 reason) eqn:Hreason; simpl; [| reflexivity].
  by rewrite lookup_alter_eq, Hrow.
Qed.

(** [updateLeadScore], step by step, for a stored lead. *)
Lemma updateLeadScore_run now leadId reason st row :
  leads (db st) !! leadId = Some row ->
  exists rules st1 events,
    getScoringRules (product_id row) st = (Ok rules, st1)
    /\ eventsInWindow now leadId rules (db st) = (Ok events, db st)
    /\ let calc := scoreOf now rules events in
       let same := total_score calc =? engagement_score row in
       updateLeadScore now leadId reason st
       = if same || (integer (total_score calc) && varchar 255 reason)
         then
           (Ok {| ur_leadId := leadId;
                  ScoringService.oldScore := engagement_score row;
                  ScoringService.newScore := total_score calc;
                  changed := negb same;
                  calculation := calc |},
            if same then st1
            else
              {| db :=
                   {| leads :=
                        alter (fun l => {| id := id l;
                                           product_id := product_id l;
                                           stage := stage l;
                                           engagement_score := total_score calc;
                                           updated_at := now |}) leadId
                          (leads (db st));
                      engagement_events := engagement_events (db st);
                      stage_transitions := stage_transitions (db st) |};
                 lead_scores :=
                   (lead_scores st ++
                      [ {| ls_lead_id := leadId;
                           ls_score := total_score calc;
                           calculation_reason := reason;
                           ls_calculated_at := now |} ])%list;
                 product_configs := product_configs st;
                 productConfigs := productConfigs st1 |})
         else
           (Throw (if integer (total_score calc) then tooLong 255
                   else outOfRange (total_score calc)), st1).
Proof.
  intros Hrow.
  destruct (calculateLeadScore_service now leadId (product_id row) st)
    as (rules & st1 & Hg & Hcalc).
  destruct (getScoringRules_frame (product_id row) st)
    as (rules' & st1' & Hg' & _ & _ & Hdb & Hls & Hpc & _).
  rewrite Hg in Hg'. injection Hg' as <- <-.
  destruct (eventsInWindow_ok now leadId rules (db st)) as (events & Hev).
  exists rules, st1, events. split; [exact Hg |]. split; [exact Hev |].
  rewrite calculateLeadScore_run, Hev in Hcalc. cbn [fst] in Hcalc.
  cbv zeta.
  assert (0 <= total_score (scoreOf now rules events)) as Hnn
    by apply Z.le_max_l.
  remember (scoreOf now rules events) as calc eqn:Hc.
  unfold updateLeadScore, bindS at 1 2, liftDb at 1, findById.
  rewrite Hrow. cbn [fmap option_fmap option_map].
  assert ({| db := db st; lead_scores := lead_scores st;
             product_configs := product_configs st;
             productConfigs := productConfigs st |} = st) as ->
    by by destruct st.
  cbn [product_id engagement_score newLead]. rewrite Hcalc.
  destruct (total_score calc =? engagement_score row); [reflexivity |].
  cbn [orb negb]. unfold bindS at 1.
  rewrite (writeScore_run now leadId (total_score calc) reason st1 row)
    by (by rewrite ?Hdb).
  rewrite Hdb, Hls, Hpc.
  by destruct (integer (total_score calc) && varchar 255 reason).
Qed.

(** [updateLeadScore] on a stored lead recomputes the score of the lead
    under the rules of its product, as [calculateLeadScore] gives it; the
    score is not negative.  When it equals the stored score nothing is
    written.  When it differs, fits an [INTEGER] and comes with a reason
    that fits its column, the lead's row takes the new score and one
    history row with that score is appended.  Either way the stored
    score is the computed one afterwards, and events and audit rows are
    untouched. *)
Theorem updateLeadScore_effects now leadId reason st lead calc :
  fst (findById leadId (db st)) = Ok (Some lead) ->
  fst (ScoringService.calculateLeadScore now leadId (product_id lead) st)
  = Ok calc ->
  total_score calc <= 2147483647 ->
  (String.length reason <= 255)%nat ->
  exists r st',
    updateLeadScore now leadId reason st = (Ok r, st')
    /\ ur_leadId r = leadId
    /\ calculation r = calc
    /\ ScoringService.oldScore r = engagement_score lead
    /\ ScoringService.newScore r = total_score calc
    /\ 0 <= ScoringService.newScore r
    /\ changed r = negb (ScoringService.newScore r =? ScoringService.oldScore r)
    /\ engagement_score <$> leads (db st') !! leadId
       = Some (ScoringService.newScore r)
    /\ lead_scores st'
       = (if changed r
          then (lead_scores st ++
                  [ {| ls_lead_id := leadId;
                       ls_score := ScoringService.newScore r;
                       calculation_reason := reason;
                       ls_calculated_at := now |} ])%list
          else lead_scores st)
    /\ (changed r = false -> db st' = db st)
    /\ engagement_events (db st') = engagement_events (db st)
    /\ stage_transitions (db st') = stage_transitions (db st)
    /\ product_configs st' = product_configs st.
Proof.
  intros Hf Hcalc Hmax Hreason.
  destruct (findById_stored _ _ _ Hf) as (row & Hrow & ->).
  destruct (updateLeadScore_run now leadId reason st row Hrow)
    as (rules & st1 & events & Hg & Hev & Hrun).
  destruct (getScoringRules_frame (product_id row) st)
    as (rules' & st1' & Hg' & _ & _ & Hdb & Hls & Hpc & _).
  rewrite Hg in Hg'. injection Hg' as <- <-.
  destruct (calculateLeadScore_service now leadId (product_id row) st)
    as (rules' & st1' & Hg' & Hcalc').
  rewrite Hg in Hg'. injection Hg' as <- <-.
  cbn [product_id newLead] in Hcalc. rewrite Hcalc' in Hcalc.
  rewrite calculateLeadScore_run, Hev in Hcalc. cbn [fst] in Hcalc.
  injection Hcalc as Hcalc. cbv zeta in Hrun. rewrite Hcalc in Hrun.
  assert (0 <= total_score calc) as Hnn
    by (rewrite <- Hcalc; apply Z.le_max_l).
  assert (integer (total_score calc) && varchar 255 reason = true) as Hok.
  { unfold integer, varchar. apply andb_true_iff. split; [lia |].
    by apply Nat.leb_le. }
  rewrite Hok, orb_true_r in Hrun.
  do 2 eexists. split; [exact Hrun |].
  cbn [ur_leadId calculation ScoringService.oldScore ScoringService.newScore
       changed engagement_score newLead].
  do 5 (split; [done |]). split; [reflexivity |].
  destruct (total_score calc =? engagement_score row) eqn:E; cbn [negb].
  - apply Z.eqb_eq in E. rewrite Hdb, Hls, Hpc, Hrow. simpl. rewrite E.
    by repeat split.
  - simpl. rewrite lookup_alter_eq, Hrow. by repeat split.
Qed.

Lemma updateLeadScore_effects_witness :
  exists r st',
    updateLeadScore Sample.now "lead-1" "recalculation" SampleState.state
    = (Ok r, st')
    /\ engagement_score <$> leads (db st') !! "lead-1"
       = Some (ScoringService.newScore r)
    /\ fst (ScoringService.calculateLeadScore Sample.now "lead-1" "prod-1"
              SampleState.state) = Ok (calculation r).
Proof.
  destruct (ScoringService.calculateLeadScore Sample.now "lead-1" "prod-1"
              SampleState.state) as [[calc | e] st1] eqn:E;
    [| vm_compute in E; discriminate].
  destruct (updateLeadScore_effects Sample.now "lead-1" "recalculation"
              SampleState.state Sample.leadUser calc)
    as (r & st' & H & _ & Hc & _ & _ & _ & _ & Hs & _).
  - vm_compute. reflexivity.
  - cbn [product_id Sample.leadUser]. by rewrite E.
  - vm_compute in E. injection E as <- _. vm_compute. discriminate.
  - vm_compute. lia.
  - exists r, st'. split; [exact H |]. split; [exact Hs |]. by rewrite Hc.
Defined.

(** Recomputing twice is the same as recomputing once.  Right after a
    successful [updateLeadScore] that left the rules of the lead's
    product in the cache (as it does unless the rules could not be read
    and the defaults were used without caching them), a second one, at
    the same time, finds the stored score up to date, reports
    [changed: false] and leaves the store exactly as it is. *)
Theorem updateLeadScore_idempotent now leadId reason reason' st r st1 row :
  leads (db st) !! leadId = Some row ->
  updateLeadScore now leadId reason st = (Ok r, st1) ->
  is_Some (productConfigs st1 !! product_id row) ->
  exists r2,
    updateLeadScore now leadId reason' st1 = (Ok r2, st1)
    /\ changed r2 = false
    /\ ScoringService.oldScore r2 = ScoringService.newScore r
    /\ ScoringService.newScore r2 = ScoringService.newScore r.
Proof.
  intros Hrow H _.
  destruct (updateLeadScore_run now leadId reason st row Hrow)
    as (rules & stc & events & Hg & Hev & Hrun).
  cbv zeta in Hrun. remember (scoreOf now rules events) as calc eqn:Hc.
  destruct (getScoringRules_frame (product_id row) st)
    as (rules' & stc' & Hg' & Hcache & _ & Hdb & Hls & Hpc & Hagain).
  rewrite Hg in Hg'. injection Hg' as <- <-.
  rewrite Hrun in H.
  destruct (total_score calc =? engagement_score row) eqn:E; cbn [orb] in H.
  - (* nothing was written *)
    injection H as <- <-.
    apply Z.eqb_eq in E.
    assert (leads (db stc) !! leadId = Some row) as Hrow1 by by rewrite Hdb.
    destruct (updateLeadScore_run now leadId reason' stc row Hrow1)
      as (rules2 & stc2 & events2 & Hg2 & Hev2 & Hrun2).
    rewrite (Hagain stc Hcache) in Hg2. injection Hg2 as <- <-.
    rewrite Hdb, Hev in Hev2. injection Hev2 as <-.
    cbv zeta in Hrun2. rewrite <- Hc in Hrun2.
    rewrite E, Z.eqb_refl in Hrun2.
    eexists. split; [exact Hrun2 |]. simpl. by rewrite E.
  - (* the score was written *)
    destruct (integer (total_score calc) && varchar 255 reason);
      [| discriminate].
    injection H as <- <-.
    match goal with
    | |- context [updateLeadScore now leadId reason' ?s] => set (st2 := s)
    end.
    assert (leads (db st2) !! leadId
            = Some {| id := id row;
                      product_id := product_id row;
                      stage := stage row;
                      engagement_score := total_score calc;
                      updated_at := now |}) as Hrow2.
    { subst st2. simpl. by rewrite lookup_alter_eq, Hrow. }
    destruct (updateLeadScore_run now leadId reason' st2 _ Hrow2)
      as (rules2 & stc2 & events2 & Hg2 & Hev2 & Hrun2).
    cbn [product_id engagement_score] in Hg2, Hrun2.
    rewrite (Hagain st2 Hcache) in Hg2. injection Hg2 as <- <-.
    assert (eventsInWindow now leadId rules (db st2) = (Ok events, db st2))
      as Hev2'.
    { unfold eventsInWindow in Hev |- *. subst st2. simpl.
      by injection Hev as ->. }
    rewrite Hev2' in Hev2. injection Hev2 as <-.
    cbv zeta in Hrun2. rewrite <- Hc in Hrun2.
    rewrite Z.eqb_refl in Hrun2.
    eexists. split; [exact Hrun2 |]. done.
Qed.

Lemma updateLeadScore_idempotent_witness :
  exists r st1 r2,
    updateLeadScore Sample.now "lead-1" "first" SampleState.state = (Ok r, st1)
    /\ updateLeadScore Sample.now "lead-1" "second" st1 = (Ok r2, st1)
    /\ changed r = true /\ changed r2 = false.
Proof.
  destruct (updateLeadScore Sample.now "lead-1" "first" SampleState.state)
    as [res st1] eqn:E.
  assert (exists r, res = Ok r /\ changed r = true) as (r & -> & Hch)
    by (vm_compute in E; injection E as <- _; by eexists).
  destruct (updateLeadScore_idempotent Sample.now "lead-1" "first" "second"
              SampleState.state r st1 Sample.leadUser)
    as (r2 & H2 & Hc2 & _).
  - vm_compute. reflexivity.
  - exact E.
  - vm_compute in E. injection E as _ <-. vm_compute. by eexists.
  - exists r, st1, r2. by repeat split.
Defined.

(** ** Batches of score updates *)

Lemma updateLeadScore_leadId now leadId reason st r st' :
  updateLeadScore now leadId reason st = (Ok r, st') -> ur_leadId r = leadId.
Proof.
  intros H.
  destruct (leads (db st) !! leadId) as [row |] eqn:Hrow.
  - destruct (updateLeadScore_run now leadId reason st row Hrow)
      as (rules & stc & events & _ & _ & Hrun).
    cbv zeta in Hrun. rewrite Hrun in H.
    match type of H with
    | (if ?b then _ else _) = _ => destruct b; [| discriminate]
    end.
    by injection H as <- _.
  - unfold updateLeadScore, bindS, liftDb, findById in H.
    rewrite Hrow in H. discriminate H.
Qed.

Lemma updateLeadScore_missing now leadId reason st :
  leads (db st) !! leadId = None ->
  fst (updateLeadScore now leadId reason st) = Throw (Error "Lead not found").
Proof.
  intros Hrow. unfold updateLeadScore, bindS, liftDb, findById.
  by rewrite Hrow.
Qed.

Lemma batchUpdateScores_cons now leadId rest reason st :
  batchUpdateScores now (leadId :: rest) reason st
  = let r := updateLeadScore now leadId reason st in
    let entry :=
      match fst r with
      | Ok result => Updated result
      | Throw e => UpdateFailed leadId (Js.message e)
      end in
    (entry :: fst (batchUpdateScores now rest reason (snd r)),
     snd (batchUpdateScores now rest reason (snd r))).
Proof.
  simpl.
  destruct (updateLeadScore now leadId reason st) as [[result | e] st'];
    simpl; by destruct (batchUpdateScores now rest reason st').
Qed.

(** [batchUpdateScores] answers for every lead id, in order: the result
    array has the ids of the input at the same positions.  A lead that is
    not stored gets [{ leadId, error: 'Lead not found', changed: false }],
    and the leads after it are still processed. *)
Theorem batchUpdateScores_aligned now leadIds reason st :
  let results := fst (batchUpdateScores now leadIds reason st) in
  map ue_leadId results = leadIds
  /\ (forall before leadId after,
        leadIds = (before ++ leadId :: after)%list ->
        let st1 := snd (batchUpdateScores now before reason st) in
        leads (db st1) !! leadId = None ->
        results !! length before
        = Some (UpdateFailed leadId "Lead not found")
        /\ drop (S (length before)) results
           = fst (batchUpdateScores now after reason
                    (snd (updateLeadScore now leadId reason st1)))).
Proof.
  assert (forall ids st0,
            map ue_leadId (fst (batchUpdateScores now ids reason st0)) = ids)
    as Hids.
  { induction ids as [| l rest IH]; intros st0; [reflexivity |].
    rewrite batchUpdateScores_cons.
    destruct (updateLeadScore now l reason st0) as [[r | e] st'] eqn:E;
      cbn -[batchUpdateScores]; rewrite IH; [| reflexivity].
    apply updateLeadScore_leadId in E. by rewrite E. }
  assert (forall l1 l2 st0,
            batchUpdateScores now (l1 ++ l2)%list reason st0
            = let r := batchUpdateScores now l1 reason st0 in
              ((fst r ++ fst (batchUpdateScores now l2 reason (snd r)))%list,
               snd (batchUpdateScores now l2 reason (snd r)))) as Happ.
  { induction l1 as [| l rest IH]; intros l2 st0.
    - simpl. by destruct (batchUpdateScores now l2 reason st0).
    - change ((l :: rest) ++ l2)%list with (l :: (rest ++ l2))%list.
      rewrite !batchUpdateScores_cons. cbn -[batchUpdateScores updateLeadScore].
      by rewrite IH. }
  intros results. subst results. split; [apply Hids |].
  intros before leadId after -> st1 Hmissing.
  rewrite Happ. cbn -[batchUpdateScores updateLeadScore].
  rewrite batchUpdateScores_cons. cbn -[batchUpdateScores updateLeadScore].
  fold st1.
  assert (length (fst (batchUpdateScores now before reason st)) = length before)
    as Hlen.
  { rewrite <- (Hids before st) at 2. by rewrite length_map. }
  rewrite (updateLeadScore_missing now leadId reason st1 Hmissing).
  split.
  - rewrite lookup_app_r by lia. by rewrite Hlen, Nat.sub_diag.
  - rewrite drop_app_ge by lia. rewrite Hlen.
    by replace (S (length before) - length before)%nat with 1%nat by lia.
Qed.

Lemma batchUpdateScores_aligned_witness :
  let results :=
    fst (batchUpdateScores Sample.now ["missing"; "lead-1"] "batch"
           SampleState.state) in
  map ue_leadId results = ["missing"; "lead-1"]
  /\ results !! 0%nat = Some (UpdateFailed "missing" "Lead not found").
Proof.
  destruct (batchUpdateScores_aligned Sample.now ["missing"; "lead-1"] "batch"
              SampleState.state) as [Hids Hiso].
  split; [exact Hids |].
  destruct (Hiso [] "missing" ["lead-1"] eq_refl) as [H _].
  - vm_compute. reflexivity.
  - exact H.
Defined.

(** ** Qualification status *)

(** For a stored lead, [checkQualificationStatus] recommends the stage of
    the first threshold the score reaches, tried from [customer] down:
    the recommendation is [Customer] exactly when [is_customer_ready],
    [Qualified_Lead] when that fails and [is_qualified] holds,
    [Engaged_Lead] when both fail and [is_engaged] holds, and [User] when
    no flag holds.  Each flag says whether the stored score reaches the
    threshold reported next to it, and the thresholds are those of the
    product's rules.  It reports the stored score and stage and writes
    nothing but the rules cache. *)
Theorem checkQualificationStatus_flags now leadId productId st lead :
  fst (findById leadId (db st)) = Ok (Some lead) ->
  exists q st',
    checkQualificationStatus leadId productId st = (Ok q, st')
    /\ q_leadId q = leadId
    /\ currentScore q = engagement_score lead
    /\ current_stage q = stage lead
    /\ (exists rules,
          fst (getScoringRules productId st) = Ok rules
          /\ th_engaged_lead q = engaged_lead_threshold rules
          /\ th_qualified_lead q = qualified_lead_threshold rules
          /\ th_customer q = customer_threshold rules)
    /\ (is_engaged q = true
        <-> (th_engaged_lead q <= inject_Z (currentScore q))%Q)
    /\ (is_qualified q = true
        <-> (th_qualified_lead q <= inject_Z (currentScore q))%Q)
    /\ (is_customer_ready q = true
        <-> (th_customer q <= inject_Z (currentScore q))%Q)
    /\ recommended_stage q
       = (if is_customer_ready q then "Customer"
          else if is_qualified q then "Qualified_Lead"
          else if is_engaged q then "Engaged_Lead"
          else "User")
    /\ db st' = db st /\ lead_scores st' = lead_scores st
    /\ product_configs st' = product_configs st
    /\ fst (ScoringService.calculateLeadScore now leadId productId st')
       = fst (ScoringService.calculateLeadScore now leadId productId st).
Proof.
  intros Hf. unfold findById in Hf. simpl in Hf.
  destruct (leads (db st) !! leadId) as [row |] eqn:Hrow; [| discriminate].
  simpl in Hf. injection Hf as <-.
  destruct (getScoringRules_frame productId st)
    as (rules & st1 & Hg & Hcache & _ & Hdb & Hls & Hpc & Hagain).
  assert (fst (ScoringService.calculateLeadScore now leadId productId st1)
          = fst (ScoringService.calculateLeadScore now leadId productId st))
    as Hsame.
  { destruct (calculateLeadScore_service now leadId productId st)
      as (rules1 & st2 & Hg1 & ->).
    rewrite Hg in Hg1. injection Hg1 as <- <-.
    destruct (calculateLeadScore_service now leadId productId st1)
      as (rules2 & st3 & Hg2 & ->).
    rewrite (Hagain st1 Hcache) in Hg2. injection Hg2 as <- <-.
    simpl. by rewrite Hdb. }
  unfold checkQualificationStatus, bindS, liftDb, findById.
  rewrite Hg. destruct st1 as [d1 ls1 pc1 cache1]. simpl in Hdb, Hls, Hpc |- *.
  subst d1 ls1 pc1. rewrite Hrow. cbn [fmap option_fmap option_map].
  do 2 eexists. split; [reflexivity |].
  cbn -[newLead getRecommendedStage ScoringService.calculateLeadScore
        getScoringRules Qle].
  do 3 (split; [reflexivity |]).
  split; [exists rules; by repeat split |].
  do 3 (split; [apply Qle_bool_iff |]).
  repeat split. exact Hsame.
Qed.

Lemma checkQualificationStatus_flags_witness :
  exists q st',
    checkQualificationStatus "lead-2" "prod-1" SampleState.state = (Ok q, st')
    /\ is_customer_ready q = false /\ recommended_stage q = "Qualified_Lead".
Proof.
  destruct (checkQualificationStatus_flags 0 "lead-2" "prod-1" SampleState.state
              Sample.leadCustomer) as (q & st' & H & _).
  - vm_compute. reflexivity.
  - exists q, st'. split; [exact H |].
    vm_compute in H. injection H as <- _. by split.
Defined.

(** ** Setting a score by hand *)

Lemma validateEngagementScore_integer score :
  validateEngagementScore score = true
  <-> exists n, 0 <= n /\ (score == inject_Z n)%Q.
Proof.
  unfold validateEngagementScore.
  rewrite andb_true_iff, Qle_bool_iff, Qeq_bool_iff. split.
  - intros [H0 Hi]. exists (Qfloor score). split; [| exact Hi].
    apply (Qfloor_resp_le 0 score H0).
  - intros (n & Hn & Hs). split.
    + rewrite Hs. change 0%Q with (inject_Z 0). by rewrite <- Zle_Qle.
    + rewrite Hs at 1. by rewrite Hs, Qfloor_Z.
Qed.

(** [updateEngagementScore] accepts the non-negative integers and nothing
    else.  With any other number it throws [Invalid engagement score] and
    writes nothing.  With a non-negative integer that fits an [INTEGER],
    and a reason that fits its column, it stores that score for a stored
    lead and appends one history row with it; with a larger integer the
    store refuses the score, the call throws and nothing is written. *)
Theorem updateEngagementScore_validates now self newScore reason st row :
  leads (db st) !! id self = Some row ->
  (String.length reason <= 255)%nat ->
  (validateEngagementScore newScore = false ->
   updateEngagementScore now self newScore reason st
   = (Throw (Error "Invalid engagement score"), st))
  /\ (forall n, 0 <= n <= 2147483647 -> (newScore == inject_Z n)%Q ->
      exists self' st',
        updateEngagementScore now self newScore reason st = (Ok self', st')
        /\ engagement_score self' = n
        /\ engagement_score <$> leads (db st') !! id self = Some n
        /\ lead_scores st'
           = (lead_scores st ++
                [ {| ls_lead_id := id self;
                     ls_score := n;
                     calculation_reason := reason;
                     ls_calculated_at := now |} ])%list
        /\ stage <$> leads (db st') !! id self = Some (stage row))
  /\ (forall n, 2147483647 < n -> (newScore == inject_Z n)%Q ->
      exists e, updateEngagementScore now self newScore reason st = (Throw e, st)).
Proof.
  intros Hrow Hreason. unfold updateEngagementScore. split; [| split].
  - by intros ->.
  - intros n Hn Hs.
    assert (validateEngagementScore newScore = true) as ->
      by (apply validateEngagementScore_integer; exists n; split; [lia | done]).
    assert (Qfloor newScore = n) as -> by (by rewrite Hs, Qfloor_Z).
    cbn [negb]. unfold bindS at 1.
    rewrite (writeScore_run now (id self) n reason st row Hrow) by lia.
    assert (integer n && varchar 255 reason = true) as ->.
    { unfold integer, varchar. apply andb_true_iff. split; [lia |].
      by apply Nat.leb_le. }
    do 2 eexists. split; [reflexivity |]. simpl.
    rewrite lookup_alter_eq, Hrow. by repeat split.
  - intros n Hn Hs.
    assert (validateEngagementScore newScore = true) as ->
      by (apply validateEngagementScore_integer; exists n; split; [lia | done]).
    assert (Qfloor newScore = n) as -> by (by rewrite Hs, Qfloor_Z).
    cbn [negb]. unfold bindS at 1.
    rewrite (writeScore_run now (id self) n reason st row Hrow) by lia.
    assert (integer n = false) as -> by (unfold integer; lia).
    cbn [andb]. eauto.
Qed.

Lemma updateEngagementScore_validates_witness :
  (exists self' st',
     updateEngagementScore 0 Sample.leadUser 42 "manual" SampleState.state
     = (Ok self', st')
     /\ engagement_score <$> leads (db st') !! "lead-1" = Some 42)
  /\ exists e,
       updateEngagementScore 0 Sample.leadUser 2147483648 "manual"
         SampleState.state
       = (Throw e, SampleState.state).
Proof.
  split.
  - destruct (updateEngagementScore_validates 0 Sample.leadUser 42 "manual"
                SampleState.state Sample.leadUser) as (_ & H & _).
    + vm_compute. reflexivity.
    + vm_compute. lia.
    + destruct (H 42) as (self' & st' & H1 & _ & H2 & _);
        [lia | reflexivity |].
      exists self', st'. by split.
  - destruct (updateEngagementScore_validates 0 Sample.leadUser 2147483648
                "manual" SampleState.state Sample.leadUser) as (_ & _ & H).
    + vm_compute. reflexivity.
    + vm_compute. lia.
    + apply (H 2147483648); [lia | reflexivity].
Defined.


(** * Leads eligible for progression *)

Import EligibleLeads.

(** [getEligibleLeads] returns at most [limit] leads, each a stored lead
    in the requested stage and, when a product is given, of that product;
    the highest score comes first and, among equal scores, the lead
    updated longest ago; the store is left as it was.  When fewer than
    [limit] leads come back, no stored lead that matches is left out. *)
Theorem getEligibleLeads_sorted stage productId limit db :
  stage <> "" ->
  exists found,
    getEligibleLeads stage productId limit db = (Ok found, db)
    /\ (length found <= limit)%nat
    /\ (forall l, l ∈ found ->
          Store.stage l = stage
          /\ (forall p, productId = Some p -> p <> "" -> product_id l = p)
          /\ exists leadId, leads db !! leadId = Some l)
    /\ Sorted (fun a b =>
                 engagement_score b < engagement_score a
                 \/ (engagement_score b = engagement_score a
                     /\ updated_at a <= updated_at b)) found
    /\ ((length found < limit)%nat ->
        forall leadId l,
          leads db !! leadId = Some l ->
          Store.stage l = stage ->
          (forall p, productId = Some p -> p <> "" -> product_id l = p) ->
          l ∈ found).
Proof.
  intros Hstage. eexists. split; [reflexivity |].
  set (rows := List.filter _ _).
  split; [rewrite length_fmap, length_take; lia |].
  assert (forall l, l ∈ rows <->
            (exists leadId, leads db !! leadId = Some l)
            /\ Store.stage l = stage
            /\ (forall p, productId = Some p -> p <> "" -> product_id l = p))
    as Hin_rows.
  { intros l. unfold rows. rewrite elem_of_List_filter, andb_true_iff.
    rewrite String.eqb_eq, list_elem_of_fmap. split.
    - intros [([leadId l'] & -> & Hin) [Hs Hp]]. split.
      + exists leadId. by apply elem_of_map_to_list in Hin.
      + split; [exact Hs |]. intros p -> Hne.
        apply orb_true_iff in Hp as [Hp | Hp];
          apply String.eqb_eq in Hp; congruence.
    - intros [[leadId Hl] [Hs Hp]]. split.
      + exists (leadId, l). split; [reflexivity |].
        by apply elem_of_map_to_list.
      + split; [exact Hs |]. destruct productId as [p |]; [| reflexivity].
        destruct (String.eqb_spec p ""); [reflexivity |].
        simpl. apply String.eqb_eq. by apply Hp. }
  assert (forall l, l ∈ take limit (orderBy byScoreThenAge rows) ->
            newLead l = l) as Hnew.
  { intros l Hl. apply subseteq_take in Hl. rewrite orderBy_perm in Hl.
    apply Hin_rows in Hl as (_ & Hs & _). destruct l as [i p s e u].
    simpl in Hs. subst s. unfold newLead. simpl.
    by destruct (String.eqb_spec stage ""). }
  assert (newLead <$> take limit (orderBy byScoreThenAge rows)
          = take limit (orderBy byScoreThenAge rows)) as ->.
  { revert Hnew.
    generalize (take limit (orderBy byScoreThenAge rows)).
    induction l as [| l ls IH]; intros Hnew; [reflexivity |].
    rewrite fmap_cons, Hnew by apply list_elem_of_here.
    rewrite IH; [reflexivity |].
    intros l' Hl'. apply Hnew. by apply list_elem_of_further. }
  split; [| split].
  - intros l Hl. apply subseteq_take in Hl. rewrite orderBy_perm in Hl.
    apply Hin_rows in Hl as (Hid & Hs & Hp). by repeat split.
  - apply Sorted_take.
    eapply Sorted_impl; [| apply (orderBy_sorted byScoreThenAge)].
    + intros a b. unfold byScoreThenAge. simpl. lia.
    + intros a b. unfold byScoreThenAge. lia.
  - intros Hlen leadId l Hl Hs Hp.
    rewrite length_take in Hlen.
    rewrite take_ge by lia. rewrite orderBy_perm.
    apply Hin_rows. split; [by exists leadId | by split].
Qed.

Lemma getEligibleLeads_sorted_witness :
  exists found,
    getEligibleLeads "Customer" (Some "prod-1") 100 Sample.dbTwoLeads
    = (Ok found, Sample.dbTwoLeads)
    /\ (length found <= 100)%nat.
Proof.
  destruct (getEligibleLeads_sorted "Customer" (Some "prod-1") 100
              Sample.dbTwoLeads) as (found & H1 & H2 & _);
    [discriminate |].
  exists found. by split.
Defined.
